(** * Device discovery of the Solaris backend of libusb

    A shallow embedding of [libusb/os/solaris_usb.c]: the walk over
    [/dev/usb], the derivation of a device identity from a device-tree node
    ([solaris_add_device]) and the remaining entry points of the backend
    table, followed by the properties of the specification that concern
    them.

    The C code talks to the file system ([opendir], [readdir], [realpath]),
    to libdevinfo ([di_init], [di_prop_lookup_ints], [di_fini]) and to the
    logging macros of libusb.  The file system and the device tree are a
    [world] the functions read from; every logging call and every call that
    acquires or releases a resource is recorded, in program order, in a
    trace carried by a writer monad. *)

From Stdlib Require Import ZArith List String Ascii Bool Lia.
Import ListNotations.

Local Open Scope string_scope.
Local Open Scope Z_scope.

(** ** C integers *)

Module CInt.

(** [int] is 32 bits wide on every Solaris data model; [unsigned long] is
    64 bits wide under LP64. *)
Definition int_bits : Z := 32.
Definition ulong_bits : Z := 64.

Definition INT_MIN : Z := - 2 ^ (int_bits - 1).
Definition INT_MAX : Z := 2 ^ (int_bits - 1) - 1.

Definition in_int (z : Z) : Prop := INT_MIN <= z <= INT_MAX.

(** Wrap-around of a mathematical integer into [int]. *)
Definition wrap_int (z : Z) : Z :=
  (z + 2 ^ (int_bits - 1)) mod 2 ^ int_bits - 2 ^ (int_bits - 1).

(** [x << n] on [int]. *)
Definition int_shl (x n : Z) : Z := wrap_int (Z.shiftl x n).

(** [x | y] on [int]. *)
Definition int_or (x y : Z) : Z := Z.lor x y.

(** Conversion of an [int] to [unsigned long]. *)
Definition ulong_of_int (x : Z) : Z := x mod 2 ^ ulong_bits.

End CInt.

(** ** C strings *)

Module CStr.

(** A C string is the [string] of its characters before the terminating
    NUL. *)

Definition char_code (c : ascii) : Z := Z.of_nat (nat_of_ascii c).

(** [s[0]]: the first character, the terminator for the empty string. *)
Definition first_char (s : string) : ascii :=
  match s with
  | EmptyString => zero
  | String c _ => c
  end.

(** [strlen]. *)
Definition strlen (s : string) : Z := Z.of_nat (String.length s).

(** [p + n] for a pointer [p] into a string: the string from offset [n]. *)
Fixpoint advance (n : nat) (s : string) : string :=
  match n, s with
  | O, _ => s
  | S n', String _ s' => advance n' s'
  | S _, EmptyString => EmptyString
  end.

(** The string that remains when a NUL is stored at offset [n]. *)
Fixpoint truncate_at (n : nat) (s : string) : string :=
  match n, s with
  | O, _ => EmptyString
  | S n', String c s' => String c (truncate_at n' s')
  | S _, EmptyString => EmptyString
  end.

(** [strchr (s, c)] as the offset of the first occurrence. *)
Fixpoint strchr (s : string) (c : ascii) : option nat :=
  match s with
  | EmptyString => None
  | String a s' =>
      if Ascii.eqb a c then Some O
      else match strchr s' c with
           | Some k => Some (S k)
           | None => None
           end
  end.

(** [strrchr (s, c)] as the offset of the last occurrence. *)
Fixpoint strrchr (s : string) (c : ascii) : option nat :=
  match s with
  | EmptyString => None
  | String a s' =>
      match strrchr s' c with
      | Some k => Some (S k)
      | None => if Ascii.eqb a c then Some O else None
      end
  end.

(** [strncmp (s1, s2, n)]: the difference of the first characters that
    differ among the first [n], the terminator included. *)
Fixpoint strncmp (s1 s2 : string) (n : nat) {struct n} : Z :=
  match n with
  | O => 0
  | S n' =>
      match s1, s2 with
      | EmptyString, EmptyString => 0
      | EmptyString, String b _ => - char_code b
      | String a _, EmptyString => char_code a
      | String a s1', String b s2' =>
          if Ascii.eqb a b then strncmp s1' s2' n'
          else char_code a - char_code b
      end
  end.

Definition isspace (c : ascii) : bool :=
  let n := char_code c in (n =? 32) || ((9 <=? n) && (n <=? 13)).

Definition isdigit (c : ascii) : bool :=
  let n := char_code c in (48 <=? n) && (n <=? 57).

Fixpoint skip_spaces (s : string) : string :=
  match s with
  | String c s' => if isspace c then skip_spaces s' else s
  | EmptyString => s
  end.

(** The value of the longest prefix of decimal digits, [acc] being the
    value of the digits already read. *)
Fixpoint digits_value (acc : Z) (s : string) : Z :=
  match s with
  | String c s' =>
      if isdigit c then digits_value (acc * 10 + (char_code c - 48)) s'
      else acc
  | EmptyString => acc
  end.

(** [atoi]: white space, an optional sign, then decimal digits up to the
    first other character.  C leaves the result undefined when the value
    does not fit an [int]; the model wraps it. *)
Definition atoi (s : string) : Z :=
  let s := skip_spaces s in
  match s with
  | String c s' =>
      if Ascii.eqb c "-" then CInt.wrap_int (- digits_value 0 s')
      else if Ascii.eqb c "+" then CInt.wrap_int (digits_value 0 s')
      else CInt.wrap_int (digits_value 0 s)
  | EmptyString => 0
  end.

End CStr.

(** ** POSIX extended regular expressions *)

Module Regex.

Inductive regex : Type :=
| Void : regex
| Eps : regex
| Chr : ascii -> regex
| Bracket : list (ascii * ascii) -> regex
| Cat : regex -> regex -> regex
| Alt : regex -> regex -> regex
| Star : regex -> regex.

(** [r+]. *)
Definition Plus (r : regex) : regex := Cat r (Star r).

Definition in_range (c : ascii) (rg : ascii * ascii) : bool :=
  (nat_of_ascii (fst rg) <=? nat_of_ascii c)%nat
  && (nat_of_ascii c <=? nat_of_ascii (snd rg))%nat.

Fixpoint nullable (r : regex) : bool :=
  match r with
  | Void => false
  | Eps => true
  | Chr _ => false
  | Bracket _ => false
  | Cat r1 r2 => nullable r1 && nullable r2
  | Alt r1 r2 => nullable r1 || nullable r2
  | Star _ => true
  end.

Fixpoint deriv (c : ascii) (r : regex) : regex :=
  match r with
  | Void => Void
  | Eps => Void
  | Chr a => if Ascii.eqb a c then Eps else Void
  | Bracket rgs => if existsb (in_range c) rgs then Eps else Void
  | Cat r1 r2 =>
      if nullable r1 then Alt (Cat (deriv c r1) r2) (deriv c r2)
      else Cat (deriv c r1) r2
  | Alt r1 r2 => Alt (deriv c r1) (deriv c r2)
  | Star r1 => Cat (deriv c r1) (Star r1)
  end.

(** The whole of [s] matches [r]. *)
Fixpoint matches (r : regex) (s : string) : bool :=
  match s with
  | EmptyString => nullable r
  | String c s' => matches (deriv c r) s'
  end.

(** Some prefix of [s] matches [r]. *)
Fixpoint matches_prefix (r : regex) (s : string) : bool :=
  nullable r
  || match s with
     | EmptyString => false
     | String c s' => matches_prefix (deriv c r) s'
     end.

(** [regexec (&r, s, 0, NULL, 0)]: a search for a match that starts at
    any offset of [s]; [true] stands for the return value 0. *)
Fixpoint regexec (r : regex) (s : string) : bool :=
  matches_prefix r s
  || match s with
     | EmptyString => false
     | String _ s' => regexec r s'
     end.

(** The strings a regular expression denotes. *)
Inductive lang : regex -> string -> Prop :=
| lang_eps : lang Eps ""
| lang_chr (c : ascii) : lang (Chr c) (String c "")
| lang_bracket (rgs : list (ascii * ascii)) (c : ascii) :
    existsb (in_range c) rgs = true -> lang (Bracket rgs) (String c "")
| lang_cat (r1 r2 : regex) (s1 s2 : string) :
    lang r1 s1 -> lang r2 s2 -> lang (Cat r1 r2) (s1 ++ s2)
| lang_alt_l (r1 r2 : regex) (s : string) : lang r1 s -> lang (Alt r1 r2) s
| lang_alt_r (r1 r2 : regex) (s : string) : lang r2 s -> lang (Alt r1 r2) s
| lang_star_nil (r : regex) : lang (Star r) ""
| lang_star_cons (r : regex) (s1 s2 : string) :
    lang r s1 -> lang (Star r) s2 -> lang (Star r) (s1 ++ s2).

End Regex.

(** ** Traces *)

Module Trace.

(** The four logging macros: [usbi_dbg], [usbi_info], [usbi_warn],
    [usbi_err]. *)
Inductive level : Type :=
| LOG_LEVEL_DEBUG
| LOG_LEVEL_INFO
| LOG_LEVEL_WARNING
| LOG_LEVEL_ERROR.

(** One constructor for each format string of the file, with the
    arguments it is printed with. *)
Inductive message : Type :=
| looking_for_property (propname : string)
| found_property (propname : string) (value : Z)
| property_is_empty (propname : string)
| failed_to_get_property (propname : string)
| got_values (retval : Z) (propname : string)
| device_node (device_node_path : string)
| di_init_failed
| busnum_devaddr_session_id (busnum devaddr session_id : Z)
| failed_to_parse_device_node
| regcomp_failed
| opendir_failed (path : string)
| start_browsing (path : string)
| skipping (name : string)
| found (name : string)
| vidpid_path_snprintf_failed
| opendir_failed_skipping (path : string)
| found_instance (name : string)
| found_ugen_device (vidpid_path name : string)
| devstat_path_snprintf_failed
| realpath_failed (devstat_path : string)
| device_path_is (device_path : string)
| not_under_devices (device_path : string)
| no_colon_in_device_node_path
| stop_browsing (path : string)
| empty_message
| clock (clkid : Z).

(** What the code acquires and has to give back. *)
Inductive resource : Type :=
| Compiled_regex
| Directory (path : string)
| Node (device_node_path : string).

Inductive clockid : Type := CLOCK_REALTIME | CLOCK_MONOTONIC.

Inductive event : Type :=
| Log (lvl : level) (msg : message)
| Acquire (r : resource)
| Release (r : resource)
| Clock_gettime (clk : clockid).

Definition trace : Type := list event.

(** The writer monad of traces. *)
Definition M (A : Type) : Type := (A * trace)%type.

Definition ret {A : Type} (a : A) : M A := (a, []).

Definition bind {A B : Type} (m : M A) (f : A -> M B) : M B :=
  let (a, t1) := m in
  let (b, t2) := f a in
  (b, (t1 ++ t2)%list).

Definition emit (e : event) : M unit := (tt, [e]).

Definition value {A : Type} (m : M A) : A := fst m.
Definition events {A : Type} (m : M A) : trace := snd m.

Definition usbi_dbg (msg : message) : M unit := emit (Log LOG_LEVEL_DEBUG msg).
Definition usbi_info (msg : message) : M unit := emit (Log LOG_LEVEL_INFO msg).
Definition usbi_warn (msg : message) : M unit :=
  emit (Log LOG_LEVEL_WARNING msg).
Definition usbi_err (msg : message) : M unit := emit (Log LOG_LEVEL_ERROR msg).

(** Observations on a trace. *)

Definition is_error (e : event) : bool :=
  match e with
  | Log LOG_LEVEL_ERROR _ => true
  | _ => false
  end.

(** The paths the resolver was entered with: [solaris_add_device] logs
    its argument first thing. *)
Fixpoint resolver_calls (t : trace) : list string :=
  match t with
  | [] => []
  | Log LOG_LEVEL_INFO (device_node p) :: t' => p :: resolver_calls t'
  | _ :: t' => resolver_calls t'
  end.

(** The identities derived: bus number, device address and session
    identifier as the resolver reports them. *)
Fixpoint sessions (t : trace) : list (Z * Z * Z) :=
  match t with
  | [] => []
  | Log LOG_LEVEL_DEBUG (busnum_devaddr_session_id b d s) :: t' =>
      (b, d, s) :: sessions t'
  | _ :: t' => sessions t'
  end.

(** The properties looked up, in the order of the lookups. *)
Fixpoint probes (t : trace) : list string :=
  match t with
  | [] => []
  | Log LOG_LEVEL_DEBUG (looking_for_property p) :: t' => p :: probes t'
  | _ :: t' => probes t'
  end.

(** The group directories entered. *)
Fixpoint groups_found (t : trace) : list string :=
  match t with
  | [] => []
  | Log LOG_LEVEL_DEBUG (found name) :: t' => name :: groups_found t'
  | _ :: t' => groups_found t'
  end.

End Trace.

Declare Scope trace_scope.
Delimit Scope trace_scope with trace.
Notation "x <- m ;; k" := (Trace.bind m (fun x => k))
  (at level 61, m at next level, right associativity) : trace_scope.
Notation "' pat <- m ;; k" :=
  (Trace.bind m (fun x => match x with pat => k end))
  (at level 61, pat pattern, m at next level, right associativity)
  : trace_scope.
Notation "m ;; k" := (Trace.bind m (fun _ => k))
  (at level 61, right associativity) : trace_scope.

(** ** The environment of the backend *)

Module Env.

(** A device-tree node as libdevinfo presents it: for a property name,
    [None] when [di_prop_lookup_ints] fails (it returns -1), and the
    integers of the property otherwise (none for a boolean property). *)
Record di_node : Type := { di_props : string -> option (list Z) }.

Record world : Type := {
  (** [regcomp] succeeds *)
  regcomp_ok : bool;
  (** [opendir] and the names successive [readdir] calls return *)
  opendir : string -> option (list string);
  (** [realpath]; the resolved path is taken to fit the buffer it is
      written to *)
  realpath : string -> option string;
  (** [di_init (path, DINFOPROP)] *)
  di_init : string -> option di_node;
  (** the return value of the system's [clock_gettime] *)
  clock_gettime : Trace.clockid -> Z
}.

(** [di_prop_lookup_ints (DDI_DEV_T_ANY, dn, propname, &intp)]: the
    return value and the integers [intp] is left pointing to. *)
Definition di_prop_lookup_ints (dn : di_node) (propname : string)
  : Z * list Z :=
  match di_props dn propname with
  | Some ints => (Z.of_nat (List.length ints), ints)
  | None => (-1, [])
  end.

End Env.

(** ** The backend *)

Module Solaris.

Import CInt CStr Regex Trace Env.
Local Open Scope trace_scope.

(** [enum libusb_error] of libusb.h.  The enumerators are kept symbolic:
    the code only ever returns them. *)
Inductive libusb_error : Type :=
| LIBUSB_SUCCESS
| LIBUSB_ERROR_IO
| LIBUSB_ERROR_INVALID_PARAM
| LIBUSB_ERROR_ACCESS
| LIBUSB_ERROR_NO_DEVICE
| LIBUSB_ERROR_NOT_FOUND
| LIBUSB_ERROR_BUSY
| LIBUSB_ERROR_TIMEOUT
| LIBUSB_ERROR_OVERFLOW
| LIBUSB_ERROR_PIPE
| LIBUSB_ERROR_INTERRUPTED
| LIBUSB_ERROR_NO_MEM
| LIBUSB_ERROR_NOT_SUPPORTED
| LIBUSB_ERROR_OTHER.

(** [enum libusb_speed] of libusb.h. *)
Inductive libusb_speed : Type :=
| LIBUSB_SPEED_UNKNOWN
| LIBUSB_SPEED_LOW
| LIBUSB_SPEED_FULL
| LIBUSB_SPEED_HIGH
| LIBUSB_SPEED_SUPER.

(** The locals of [solaris_add_device] where it reports the session
    identifier: the identity derived for a device. *)
Record device_identity : Type := {
  session_id : Z;
  busnum : Z;
  devaddr : Z;
  numconf : Z;
  speed : libusb_speed
}.

(** [struct discovered_devs]: the devices collected by a discovery pass. *)
Definition discovered_devs : Type := list device_identity.

Definition dev_usb : string := "/dev/usb".
Definition devices : string := "/devices".
Definition devices_len : nat := String.length devices.

(** [sizeof] of the two path buffers, the terminator included. *)
Definition sizeof_vidpid_path : Z := strlen "/dev/usb/vvvv.pppp" + 1.
Definition sizeof_devstat_path : Z :=
  strlen "/dev/usb/vvvv.pppp/iiii/devstat" + 1.

(** The pattern given to [regcomp]: ["[0-9a-f]+\\.[0-9a-f]+"] with
    [REG_EXTENDED]. *)
Definition hex : regex := Bracket [("0"%char, "9"%char); ("a"%char, "f"%char)].
Definition vidpid_regex : regex := Cat (Plus hex) (Cat (Chr ".") (Plus hex)).

(** An [int *] argument: [None] for [NULL], otherwise the integer
    pointed to.  The result carries the integer pointed to on return. *)
Definition di_prop_get_int (dn : di_node) (propname : string)
  (out : option Z) : M (Z * option Z) :=
  usbi_dbg (looking_for_property propname) ;;
  let (retval, intp) := di_prop_lookup_ints dn propname in
  if retval =? 1 then
    let out' := match out with
                | Some _ => Some (hd 0 intp)
                | None => None
                end in
    usbi_dbg (found_property propname (hd 0 intp)) ;;
    ret (retval, out')
  else if retval =? 0 then
    usbi_dbg (property_is_empty propname) ;;
    ret (retval, out)
  else if retval <? 0 then
    usbi_dbg (failed_to_get_property propname) ;;
    ret (retval, out)
  else
    usbi_dbg (got_values retval propname) ;;
    ret (retval, out).

(** The integer an [int *] result points to; [dflt] stands in for a
    pointer that was [NULL]. *)
Definition deref (out : option Z) (dflt : Z) : Z :=
  match out with
  | Some v => v
  | None => dflt
  end.

(** The chain of speed probes of [solaris_add_device]. *)
Definition classify_speed (devnode : di_node) : M libusb_speed :=
  '(r, _) <- di_prop_get_int devnode "low-speed" None ;;
  if 0 <=? r then ret LIBUSB_SPEED_LOW else
  '(r, _) <- di_prop_get_int devnode "full-speed" None ;;
  if 0 <=? r then ret LIBUSB_SPEED_FULL else
  '(r, _) <- di_prop_get_int devnode "high-speed" None ;;
  if 0 <=? r then ret LIBUSB_SPEED_HIGH else
  '(r, _) <- di_prop_get_int devnode "super-speed" None ;;
  if 0 <=? r then ret LIBUSB_SPEED_SUPER else
  ret LIBUSB_SPEED_FULL.

(** [solaris_add_device] between [di_init] and the [cleanup] label: the
    identity derived from the open node, [None] where the code jumps to
    [cleanup] before it has one. *)
Definition derive_identity (devnode : di_node) (device_node_path : string)
  : M (option device_identity) :=
  let busnum := 0 in
  let devaddr := 0 in
  let numconf := 1 in
  '(r, out) <- di_prop_get_int devnode "assigned-address" (Some busnum) ;;
  let busnum := deref out busnum in
  if negb (r =? 1) then ret None else
  '(r, out) <- di_prop_get_int devnode "usb-num-configs" (Some numconf) ;;
  let numconf := deref out numconf in
  if negb (r =? 1) then ret None else
  speed <- classify_speed devnode ;;
  match strrchr device_node_path "@" with
  | None =>
      usbi_err failed_to_parse_device_node ;;
      ret None
  | Some at_ =>
      let at_ := S at_ in
      let devaddr := atoi (advance at_ device_node_path) in
      let session_id := ulong_of_int (int_or (int_shl busnum 8) devaddr) in
      usbi_dbg (busnum_devaddr_session_id busnum devaddr session_id) ;;
      ret (Some {| session_id := session_id; busnum := busnum;
                   devaddr := devaddr; numconf := numconf;
                   speed := speed |})
  end.

(** [solaris_add_device (ctx, discdevs, device_node_path)].  [ctx] only
    labels the log output and is left out; the collection [discdevs]
    points to is passed in and handed back. *)
Definition solaris_add_device (w : world) (discdevs : discovered_devs)
  (device_node_path : string) : M discovered_devs :=
  usbi_info (device_node device_node_path) ;;
  match di_init w device_node_path with
  | None =>
      usbi_err di_init_failed ;;
      ret discdevs
  | Some devnode =>
      emit (Acquire (Node device_node_path)) ;;
      _ <- derive_identity devnode device_node_path ;;
      emit (Release (Node device_node_path)) ;;
      ret discdevs
  end.

(** The body of the loop over the instances of one group. *)
Definition browse_instance (w : world) (vidpid_path : string)
  (discdevs : discovered_devs) (inst : string) : M discovered_devs :=
  if Ascii.eqb "." (first_char inst) then ret discdevs else
  usbi_dbg (found_instance inst) ;;
  usbi_info (found_ugen_device vidpid_path inst) ;;
  let devstat_path := vidpid_path ++ "/" ++ inst ++ "/devstat" in
  let retval := strlen devstat_path in
  if sizeof_devstat_path <=? retval then
    usbi_err devstat_path_snprintf_failed ;;
    ret discdevs
  else
  match realpath w devstat_path with
  | None =>
      usbi_err (realpath_failed devstat_path) ;;
      ret discdevs
  | Some device_path =>
      usbi_dbg (device_path_is device_path) ;;
      if negb (strncmp device_path devices devices_len =? 0) then
        usbi_warn (not_under_devices device_path) ;;
        ret discdevs
      else
      let device_node_path := advance devices_len device_path in
      match strrchr device_node_path ":" with
      | Some colon =>
          solaris_add_device w discdevs
            (truncate_at colon device_node_path)
      | None =>
          usbi_warn no_colon_in_device_node_path ;;
          solaris_add_device w discdevs device_node_path
      end
  end.

(** [while ((inst = readdir (vidpid_dir)) != NULL)]. *)
Fixpoint browse_instances (w : world) (vidpid_path : string)
  (discdevs : discovered_devs) (insts : list string) : M discovered_devs :=
  match insts with
  | [] => ret discdevs
  | inst :: rest =>
      discdevs <- browse_instance w vidpid_path discdevs inst ;;
      browse_instances w vidpid_path discdevs rest
  end.

(** The body of the loop over the entries of [/dev/usb]. *)
Definition browse_vidpid (w : world) (discdevs : discovered_devs)
  (d_name : string) : M discovered_devs :=
  if negb (regexec vidpid_regex d_name) then
    (if negb (Ascii.eqb "." (first_char d_name))
     then usbi_dbg (skipping d_name) else ret tt) ;;
    ret discdevs
  else
  usbi_dbg (found d_name) ;;
  let vidpid_path := dev_usb ++ "/" ++ d_name in
  let retval := strlen vidpid_path in
  if sizeof_vidpid_path <=? retval then
    usbi_err vidpid_path_snprintf_failed ;;
    ret discdevs
  else
  match opendir w vidpid_path with
  | None =>
      usbi_err (opendir_failed_skipping vidpid_path) ;;
      ret discdevs
  | Some insts =>
      emit (Acquire (Directory vidpid_path)) ;;
      usbi_dbg (start_browsing vidpid_path) ;;
      discdevs <- browse_instances w vidpid_path discdevs insts ;;
      usbi_dbg (stop_browsing vidpid_path) ;;
      ret discdevs
  end.

(** [while ((vidpid = readdir (dev_usb_dir)) != NULL)]. *)
Fixpoint browse_dev_usb (w : world) (discdevs : discovered_devs)
  (entries : list string) : M discovered_devs :=
  match entries with
  | [] => ret discdevs
  | d_name :: rest =>
      discdevs <- browse_vidpid w discdevs d_name ;;
      browse_dev_usb w discdevs rest
  end.

(** [solaris_get_device_list (ctx, discdevs)]. *)
Definition solaris_get_device_list (w : world) (discdevs : discovered_devs)
  : M (libusb_error * discovered_devs) :=
  if negb (regcomp_ok w) then
    usbi_err regcomp_failed ;;
    ret (LIBUSB_ERROR_NO_MEM, discdevs)
  else
  emit (Acquire Compiled_regex) ;;
  match opendir w dev_usb with
  | None =>
      usbi_err (opendir_failed dev_usb) ;;
      emit (Release Compiled_regex) ;;
      ret (LIBUSB_ERROR_ACCESS, discdevs)
  | Some entries =>
      emit (Acquire (Directory dev_usb)) ;;
      usbi_dbg (start_browsing dev_usb) ;;
      discdevs <- browse_dev_usb w discdevs entries ;;
      usbi_dbg (stop_browsing dev_usb) ;;
      emit (Release (Directory dev_usb)) ;;
      ret (LIBUSB_ERROR_NO_DEVICE, discdevs)
  end.

(** *** The other entry points of [solaris_backend] *)

(** A pointer the backend receives and never dereferences: an address. *)
Definition pointer : Type := Z.

(** What an [int] function returns: an enumerator of [libusb_error], or
    the return value of a system call handed through. *)
Inductive retcode : Type :=
| Libusb (e : libusb_error)
| System (r : Z).

Definition solaris_open (handle : pointer) : M retcode :=
  ret (Libusb LIBUSB_ERROR_NO_DEVICE).

Definition solaris_close (handle : pointer) : M unit := ret tt.

Definition solaris_get_device_descriptor (dev buf host_endian : pointer)
  : M retcode :=
  ret (Libusb LIBUSB_ERROR_NO_DEVICE).

Definition solaris_get_active_config_descriptor (dev buf : pointer)
  (len : Z) (host_endian : pointer) : M retcode :=
  ret (Libusb LIBUSB_ERROR_NO_DEVICE).

Definition solaris_get_config_descriptor (dev : pointer) (idx : Z)
  (buf : pointer) (len : Z) (host_endian : pointer) : M retcode :=
  ret (Libusb LIBUSB_ERROR_NO_DEVICE).

Definition solaris_get_configuration (handle config : pointer) : M retcode :=
  ret (Libusb LIBUSB_ERROR_NO_DEVICE).

Definition solaris_set_configuration (handle : pointer) (config : Z)
  : M retcode :=
  ret (Libusb LIBUSB_ERROR_NO_DEVICE).

Definition solaris_claim_interface (handle : pointer) (iface : Z)
  : M retcode :=
  ret (Libusb LIBUSB_ERROR_NO_DEVICE).

Definition solaris_release_interface (handle : pointer) (iface : Z)
  : M retcode :=
  ret (Libusb LIBUSB_ERROR_NO_DEVICE).

Definition solaris_set_interface_altsetting (handle : pointer)
  (iface altsetting : Z) : M retcode :=
  ret (Libusb LIBUSB_ERROR_NO_DEVICE).

Definition solaris_clear_halt (handle : pointer) (endpoint : Z) : M retcode :=
  ret (Libusb LIBUSB_ERROR_NO_DEVICE).

Definition solaris_reset_device (handle : pointer) : M retcode :=
  ret (Libusb LIBUSB_ERROR_NO_DEVICE).

Definition solaris_destroy_device (dev : pointer) : M unit := ret tt.

Definition solaris_submit_transfer (itransfer : pointer) : M retcode :=
  ret (Libusb LIBUSB_ERROR_NO_DEVICE).

Definition solaris_cancel_transfer (itransfer : pointer) : M retcode :=
  usbi_dbg empty_message ;;
  ret (Libusb LIBUSB_ERROR_NOT_SUPPORTED).

Definition solaris_clear_transfer_priv (itransfer : pointer) : M unit :=
  ret tt.

Definition solaris_handle_events (ctx fds : pointer) (nfds num_ready : Z)
  : M retcode :=
  ret (Libusb LIBUSB_ERROR_NO_DEVICE).

Section Clock.

(** The two clock identifiers of libusbi.h, whose values this file does
    not fix. *)
Variables USBI_CLOCK_MONOTONIC USBI_CLOCK_REALTIME : Z.

Definition solaris_clock_gettime (w : world) (clkid : Z) (tp : pointer)
  : M retcode :=
  usbi_dbg (clock clkid) ;;
  if clkid =? USBI_CLOCK_REALTIME then
    emit (Clock_gettime CLOCK_REALTIME) ;;
    ret (System (clock_gettime w CLOCK_REALTIME))
  else if clkid =? USBI_CLOCK_MONOTONIC then
    emit (Clock_gettime CLOCK_MONOTONIC) ;;
    ret (System (clock_gettime w CLOCK_MONOTONIC))
  else
    ret (Libusb LIBUSB_ERROR_INVALID_PARAM).

End Clock.

End Solaris.

(** ** Closed forms

    The terms the properties below are stated with: what a lookup returns
    and logs, which probes a classification makes, where the walker points
    the resolver. *)

Module Summary.

Import CInt CStr Regex Trace Env Solaris.

(** No character of [s] is the terminator. *)
Fixpoint no_nul (s : string) : bool :=
  match s with
  | EmptyString => true
  | String c s' => negb (Ascii.eqb c zero) && no_nul s'
  end.

(** Strings of hexadecimal digits in lower case, and the names made of two
    of them around a dot. *)
Definition is_hex (c : ascii) : bool :=
  existsb (in_range c) [("0"%char, "9"%char); ("a"%char, "f"%char)].

Fixpoint all_hex (s : string) : bool :=
  match s with
  | EmptyString => true
  | String c s' => is_hex c && all_hex s'
  end.

Definition hex_string (s : string) : Prop := s <> "" /\ all_hex s = true.

Definition vidpid_name (s : string) : Prop :=
  exists a b, s = a ++ "." ++ b /\ hex_string a /\ hex_string b.

(** The return value of the lookup of [propname] on [dn]. *)
Definition lookup_retval (dn : di_node) (propname : string) : Z :=
  fst (di_prop_lookup_ints dn propname).

(** The lookup returns a code that is not negative. *)
Definition present (dn : di_node) (propname : string) : bool :=
  0 <=? lookup_retval dn propname.

(** The line [di_prop_get_int] logs about the outcome of the lookup. *)
Definition lookup_report (dn : di_node) (propname : string) : message :=
  let (retval, intp) := di_prop_lookup_ints dn propname in
  if retval =? 1 then found_property propname (hd 0 intp)
  else if retval =? 0 then property_is_empty propname
  else if retval <? 0 then failed_to_get_property propname
  else got_values retval propname.

(** The integer an [int *] argument points to after the lookup. *)
Definition lookup_out (dn : di_node) (propname : string) (out : option Z)
  : option Z :=
  match out with
  | None => None
  | Some v =>
      if lookup_retval dn propname =? 1
      then Some (hd 0 (snd (di_prop_lookup_ints dn propname)))
      else Some v
  end.

(** What one call of [di_prop_get_int] adds to the trace. *)
Definition lookup_events (dn : di_node) (propname : string) : trace :=
  [Log LOG_LEVEL_DEBUG (looking_for_property propname);
   Log LOG_LEVEL_DEBUG (lookup_report dn propname)].

(** The names probed from a list of candidates: each in turn, the first
    one that is present being the last one probed. *)
Fixpoint probed_until (f : string -> bool) (names : list string)
  : list string :=
  match names with
  | [] => []
  | p :: rest => p :: if f p then [] else probed_until f rest
  end.

Definition speed_props : list string :=
  ["low-speed"; "full-speed"; "high-speed"; "super-speed"].

Definition speed_of_presence (dn : di_node) : libusb_speed :=
  if present dn "low-speed" then LIBUSB_SPEED_LOW
  else if present dn "full-speed" then LIBUSB_SPEED_FULL
  else if present dn "high-speed" then LIBUSB_SPEED_HIGH
  else if present dn "super-speed" then LIBUSB_SPEED_SUPER
  else LIBUSB_SPEED_FULL.

(** Where the walker points the resolver for a resolved [device_path]. *)
Definition device_node_path_of (device_path : string) : string :=
  let rest := advance devices_len device_path in
  match strrchr rest ":" with
  | Some colon => truncate_at colon rest
  | None => rest
  end.

Definition devstat_path_of (vidpid_path inst : string) : string :=
  vidpid_path ++ "/" ++ inst ++ "/devstat".

(** What the walker logs for an instance before it enters the resolver. *)
Definition instance_header (vidpid_path inst device_path : string) : trace :=
  ([Log LOG_LEVEL_DEBUG (found_instance inst);
    Log LOG_LEVEL_INFO (found_ugen_device vidpid_path inst);
    Log LOG_LEVEL_DEBUG (device_path_is device_path)]
   ++ match strrchr (advance devices_len device_path) ":" with
      | Some _ => []
      | None => [Log LOG_LEVEL_WARNING no_colon_in_device_node_path]
      end)%list.

(** Following the words of the specification: the prefix stripped, then
    the remainder cut "at the first colon found after the prefix". *)
Definition spec_first_colon_path (device_path : string) : string :=
  let rest := advance devices_len device_path in
  match strchr rest ":" with
  | Some colon => truncate_at colon rest
  | None => rest
  end.

(** A trace that neither enters the resolver nor reports an identity. *)
Definition quiet (t : trace) : Prop := resolver_calls t = [] /\ sessions t = [].

(** The identities a derivation reports. *)
Definition reported (r : option device_identity) : list (Z * Z * Z) :=
  match r with
  | Some id => [(busnum id, devaddr id, session_id id)]
  | None => []
  end.

(** Strings of decimal digits. *)
Fixpoint all_digits (s : string) : bool :=
  match s with
  | EmptyString => true
  | String c s' => isdigit c && all_digits s'
  end.

End Summary.

(** ** Scenarios

    Small file systems and device trees on which the backend is run. *)

Module Scenarios.

Import Trace Env Solaris.

(** Lookup in an association list keyed by strings. *)
Definition assoc {A : Type} (l : list (string * A)) (k : string) : option A :=
  option_map snd (find (fun e => String.eqb (fst e) k) l).

Definition node_of (props : list (string * list Z)) : di_node :=
  {| di_props := assoc props |}.

Definition world_of (dirs : list (string * list string))
  (links : list (string * string)) (nodes : list (string * di_node)) : world :=
  {| regcomp_ok := true;
     opendir := assoc dirs;
     realpath := assoc links;
     di_init := assoc nodes;
     clock_gettime := fun _ => 0 |}.

(** A device on bus 0x12 with one configuration. *)
Definition node_bus_0x12 : di_node :=
  node_of [("assigned-address", [18]); ("usb-num-configs", [1])].

(** One group, one instance, the device at address 0x34 on bus 0x12. *)
Definition world_one_device : world :=
  world_of
    [("/dev/usb", ["."; ".."; "a12.1"]); ("/dev/usb/a12.1", ["."; ".."; "0"])]
    [("/dev/usb/a12.1/0/devstat",
      "/devices/pci@0,0/pci106b,3f@6/device@52:a12.1.devstat")]
    [("/pci@0,0/pci106b,3f@6/device@52", node_bus_0x12)].

(** Nodes that lack one of the required properties, or carry an odd value. *)
Definition node_without_numconf : di_node :=
  node_of [("assigned-address", [1])].
Definition node_zero_configs : di_node :=
  node_of [("assigned-address", [1]); ("usb-num-configs", [0])].
Definition world_without_numconf : world :=
  world_of [] [] [("/pci@0,0/device@7", node_without_numconf)].
Definition node_low_and_high : di_node :=
  node_of [("assigned-address", [1]); ("usb-num-configs", [1]);
           ("high-speed", []); ("low-speed", [])].
Definition node_without_busnum : di_node :=
  node_of [("usb-num-configs", [1])].
Definition world_without_busnum : world :=
  world_of
    [("/dev/usb", ["a12.1"]); ("/dev/usb/a12.1", ["0"; "1"])]
    [("/dev/usb/a12.1/0/devstat", "/devices/pci@0,0/device@7:a12.1.devstat");
     ("/dev/usb/a12.1/1/devstat",
      "/devices/pci@0,0/pci106b,3f@6/device@52:a12.1.devstat")]
    [("/pci@0,0/device@7", node_without_busnum);
     ("/pci@0,0/pci106b,3f@6/device@52", node_bus_0x12)].

(** A world where [regcomp] fails, and one without [/dev/usb]. *)
Definition world_no_regex : world :=
  {| regcomp_ok := false;
     opendir := opendir world_one_device;
     realpath := realpath world_one_device;
     di_init := di_init world_one_device;
     clock_gettime := clock_gettime world_one_device |}.

Definition world_no_dev_usb : world := world_of [] [] [].

(** A group whose name only contains a vid.pid pattern. *)
Definition world_unanchored : world :=
  world_of
    [("/dev/usb", ["x1.2y"]); ("/dev/usb/x1.2y", ["0"])]
    [("/dev/usb/x1.2y/0/devstat", "/devices/pci@0,0/device@2:x.devstat")]
    [("/pci@0,0/device@2", node_bus_0x12)].

(** Resolved paths with two colons, with none, and without an [@]. *)
Definition world_two_colons : world :=
  world_of
    [("/dev/usb", ["a12.1"]); ("/dev/usb/a12.1", ["0"])]
    [("/dev/usb/a12.1/0/devstat", "/devices/pci@0,0/device@2:a12.1:devstat")]
    [("/pci@0,0/device@2", node_bus_0x12)].
Definition world_no_colon : world :=
  world_of
    [("/dev/usb", ["a12.1"]); ("/dev/usb/a12.1", ["0"])]
    [("/dev/usb/a12.1/0/devstat", "/devices/pci@0,0/device@2")]
    [("/pci@0,0/device@2", node_bus_0x12)].
Definition world_without_at : world :=
  world_of [] []
    [("/pci/device", node_without_busnum); ("/pci/hub", node_bus_0x12)].

End Scenarios.

(** ** Accounts of a trace

    What further properties of the backend are stated with: the node
    handles and the files a trace leaves open, the buffers of the walker,
    the identities a trace owes to its resolver calls. *)

Module Coverage.

Import CInt CStr Regex Trace Env Solaris Summary Scenarios.

(** Replaying the node handles of a trace: [held] is the node that is open.
    The result is [None] when the trace opens a node while one is open, or
    releases a node that is not the one open; otherwise it is the node left
    open at the end. *)
Fixpoint replay_nodes (held : option string) (t : trace)
  : option (option string) :=
  match t with
  | [] => Some held
  | Acquire (Node p) :: t' =>
      match held with
      | None => replay_nodes (Some p) t'
      | Some _ => None
      end
  | Release (Node p) :: t' =>
      match held with
      | Some q => if String.eqb p q then replay_nodes None t' else None
      | None => None
      end
  | _ :: t' => replay_nodes held t'
  end.

Definition is_node_event (e : event) : bool :=
  match e with
  | Acquire (Node _) | Release (Node _) => true
  | _ => false
  end.

Definition is_node (r : resource) : bool :=
  match r with
  | Node _ => true
  | _ => false
  end.

(** What a trace acquires and what it releases, in order. *)
Fixpoint acquired (t : trace) : list resource :=
  match t with
  | [] => []
  | Acquire r :: t' => r :: acquired t'
  | _ :: t' => acquired t'
  end.

Fixpoint released (t : trace) : list resource :=
  match t with
  | [] => []
  | Release r :: t' => r :: released t'
  | _ :: t' => released t'
  end.

(** The regular expression and the directories among resources. *)
Definition files (rs : list resource) : list resource :=
  filter (fun r => negb (is_node r)) rs.

(** The path [snprintf] composes for a group. *)
Definition vidpid_path_of (d_name : string) : string :=
  dev_usb ++ "/" ++ d_name.

(** The entry passes the filter, its path fits the buffer and its
    directory opens. *)
Definition group_opens (w : world) (d_name : string) : bool :=
  regexec vidpid_regex d_name
  && (strlen (vidpid_path_of d_name) <? sizeof_vidpid_path)
  && match opendir w (vidpid_path_of d_name) with
     | Some _ => true
     | None => false
     end.

(** The identities the resolver reports for a path. *)
Definition resolved (w : world) (dd : discovered_devs) (path : string)
  : list (Z * Z * Z) :=
  sessions (events (solaris_add_device w dd path)).

(** The identities of a trace are those of its resolver calls, in order. *)
Definition composed (w : world) (dd : discovered_devs) (t : trace) : Prop :=
  sessions t = flat_map (resolved w dd) (resolver_calls t).

(** An instance whose witness file resolves outside [/devices]. *)
Definition world_outside_devices : world :=
  world_of
    [("/dev/usb", ["a12.1"]); ("/dev/usb/a12.1", ["0"])]
    [("/dev/usb/a12.1/0/devstat", "/tmp/device@2:a12.1.devstat")]
    [("/device@2", node_bus_0x12)].

(** A device that announces the three faster speeds. *)
Definition node_super : di_node :=
  node_of [("assigned-address", [1]); ("usb-num-configs", [1]);
           ("super-speed", [])].

End Coverage.

(** * Properties *)

(** ** C integers *)

Module CIntFacts.

Import CInt.

Example session_id_0x1234 :
  ulong_of_int (int_or (int_shl 18 8) 52) = 4660.
Proof. reflexivity. Qed.

(** Nothing keeps an address within 8 bits: address 261 on bus 1 gets the
    session identifier of address 5 on bus 1. *)
Example session_id_collision :
  ulong_of_int (int_or (int_shl 1 8) 261)
  = ulong_of_int (int_or (int_shl 1 8) 5).
Proof. reflexivity. Qed.

Lemma wrap_int_id (z : Z) : in_int z -> wrap_int z = z.
Proof.
  unfold in_int, INT_MIN, INT_MAX, wrap_int, int_bits. intros H.
  change (2 ^ (32 - 1)) with 2147483648 in *.
  change (2 ^ 32) with 4294967296.
  rewrite Z.mod_small; lia.
Qed.

Lemma wrap_int_range (z : Z) : in_int (wrap_int z).
Proof.
  unfold in_int, INT_MIN, INT_MAX, wrap_int, int_bits.
  change (2 ^ (32 - 1)) with 2147483648.
  change (2 ^ 32) with 4294967296.
  pose proof (Z.mod_pos_bound (z + 2147483648) 4294967296 ltac:(lia)). lia.
Qed.

Lemma lor_bound (x y n : Z) :
  0 <= n -> 0 <= x < 2 ^ n -> 0 <= y < 2 ^ n -> 0 <= Z.lor x y < 2 ^ n.
Proof.
  intros Hn Hx Hy.
  assert (Hl : 0 <= Z.lor x y) by (apply Z.lor_nonneg; lia).
  split; [assumption|].
  destruct (Z.eq_dec (Z.lor x y) 0) as [E|E].
  { rewrite E. apply Z.pow_pos_nonneg; lia. }
  assert (Hn' : 0 < n).
  { destruct (Z.eq_dec n 0) as [->|]; [|lia].
    change (2 ^ 0) with 1 in *.
    assert (x = 0) as -> by lia. assert (y = 0) as -> by lia.
    now contradiction E. }
  apply Z.log2_lt_pow2; [lia|].
  rewrite Z.log2_lor by lia.
  apply Z.max_lub_lt.
  - destruct (Z.eq_dec x 0) as [->|]; [exact Hn'|]. apply Z.log2_lt_pow2; lia.
  - destruct (Z.eq_dec y 0) as [->|]; [exact Hn'|]. apply Z.log2_lt_pow2; lia.
Qed.

Lemma session_id_in_range (b d : Z) :
  0 <= b < 2 ^ 23 -> 0 <= d -> in_int d ->
  ulong_of_int (int_or (int_shl b 8) d) = Z.lor (Z.shiftl b 8) d.
Proof.
  intros Hb Hd Hi. unfold ulong_of_int, int_or, int_shl, ulong_bits.
  assert (Hs : 0 <= Z.shiftl b 8 < 2 ^ 31).
  { rewrite Z.shiftl_mul_pow2 by lia.
    change (2 ^ 8) with 256. change (2 ^ 23) with 8388608 in Hb.
    change (2 ^ 31) with 2147483648. lia. }
  rewrite wrap_int_id.
  2:{ unfold in_int, INT_MIN, INT_MAX, int_bits.
      change (2 ^ (32 - 1)) with 2147483648.
      change (2 ^ 31) with 2147483648 in Hs. lia. }
  assert (Hd' : 0 <= d < 2 ^ 31).
  { unfold in_int, INT_MIN, INT_MAX, int_bits in Hi.
    change (2 ^ (32 - 1)) with 2147483648 in Hi.
    change (2 ^ 31) with 2147483648. lia. }
  pose proof (lor_bound (Z.shiftl b 8) d 31 ltac:(lia) Hs Hd') as Hl.
  change (2 ^ 31) with 2147483648 in Hl.
  apply Z.mod_small. change (2 ^ 64) with 18446744073709551616. lia.
Qed.

End CIntFacts.

(** ** C strings *)

Module StringFacts.

Import CInt CStr Summary CIntFacts.

(** The functions on the paths of the source comments. *)

Example strrchr_at :
  strrchr "/pci@0,0/pci106b,3f@6/device@2" "@" = Some 28%nat.
Proof. reflexivity. Qed.

Example strrchr_colon :
  strrchr "/pci@0,0/pci106b,3f@6/device@2:a12.1.devstat" ":" = Some 30%nat
  /\ truncate_at 30 "/pci@0,0/pci106b,3f@6/device@2:a12.1.devstat"
     = "/pci@0,0/pci106b,3f@6/device@2".
Proof. split; reflexivity. Qed.

Example strncmp_devices :
  strncmp "/devices/pci@0,0" "/devices" 8 = 0
  /\ strncmp "/dev/usb" "/devices" 8 = char_code "/" - char_code "i"
  /\ advance 8 "/devices/pci@0,0" = "/pci@0,0".
Proof. repeat split. Qed.

Example atoi_device_address :
  atoi "2" = 2 /\ atoi "52" = 52 /\ atoi "7abc" = 7 /\ atoi "abc" = 0
  /\ atoi "" = 0 /\ atoi " -12x" = -12 /\ atoi "+3" = 3
  /\ atoi "4294967298" = 2.
Proof. repeat split. Qed.

Lemma char_code_inj (a b : ascii) : char_code a = char_code b -> a = b.
Proof.
  unfold char_code; intros H. apply Nat2Z.inj in H.
  rewrite <- (ascii_nat_embedding a), <- (ascii_nat_embedding b). now rewrite H.
Qed.

Lemma strncmp_prefix (p s : string) :
  no_nul p = true ->
  strncmp s p (String.length p) = 0 ->
  s = p ++ advance (String.length p) s.
Proof.
  revert s; induction p as [|b p IH]; intros s Hp H; [reflexivity|].
  cbn [no_nul] in Hp. cbn [strncmp String.length] in H.
  cbn [String.length advance append].
  apply andb_prop in Hp as [Hb Hp].
  destruct s as [|a s]; cbn [strncmp] in H.
  - exfalso. apply negb_true_iff, Ascii.eqb_neq in Hb. apply Hb.
    apply char_code_inj. change (char_code zero) with 0. lia.
  - destruct (Ascii.eqb a b) eqn:E.
    + apply Ascii.eqb_eq in E; subst a. f_equal. now apply IH.
    + exfalso. apply Ascii.eqb_neq in E. apply E, char_code_inj. lia.
Qed.

Lemma strncmp_append (p r : string) : strncmp (p ++ r) p (String.length p) = 0.
Proof.
  induction p as [|b p IH]; simpl; [reflexivity|].
  now rewrite Ascii.eqb_refl.
Qed.

Lemma advance_append (p r : string) : advance (String.length p) (p ++ r) = r.
Proof. induction p; simpl; [now destruct r|assumption]. Qed.

(** [strrchr] finds the last occurrence. *)
Lemma strrchr_last (s : string) (c : ascii) (k : nat) :
  strrchr s c = Some k ->
  s = truncate_at k s ++ String c (advance (S k) s)
  /\ strchr (advance (S k) s) c = None.
Proof.
  revert k; induction s as [|a s IH]; intros k H; simpl in H; [discriminate|].
  destruct (strrchr s c) as [j|] eqn:E.
  - injection H as <-. destruct (IH j eq_refl) as [H1 H2].
    split; [simpl; f_equal; exact H1 | exact H2].
  - destruct (Ascii.eqb a c) eqn:Ea; [|discriminate].
    injection H as <-. apply Ascii.eqb_eq in Ea; subst a. simpl.
    split; [now destruct s|].
    destruct s; [reflexivity|].
    clear IH. revert E. generalize (String a s). intros s0.
    induction s0 as [|x s0 IH0]; simpl; [reflexivity|].
    destruct (strrchr s0 c); [discriminate|].
    destruct (Ascii.eqb x c); [discriminate|]. intros _. now rewrite IH0.
Qed.

Lemma strrchr_none (s : string) (c : ascii) :
  strrchr s c = None <-> strchr s c = None.
Proof.
  induction s as [|a s IH]; simpl; [tauto|].
  destruct (Ascii.eqb a c).
  - destruct (strrchr s c); split; discriminate.
  - destruct (strrchr s c), (strchr s c); split; intros H;
      try discriminate; try reflexivity.
    + destruct IH as [_ IH]; discriminate (IH eq_refl).
    + destruct IH as [IH _]; discriminate (IH eq_refl).
Qed.

Lemma strchr_first (s : string) (c : ascii) (k : nat) :
  strchr s c = Some k ->
  s = truncate_at k s ++ String c (advance (S k) s)
  /\ strchr (truncate_at k s) c = None.
Proof.
  revert k; induction s as [|a s IH]; intros k H; simpl in H; [discriminate|].
  destruct (Ascii.eqb a c) eqn:Ea.
  - injection H as <-. apply Ascii.eqb_eq in Ea; subst a. simpl.
    split; [now destruct s | reflexivity].
  - destruct (strchr s c) as [j|]; [|discriminate].
    injection H as <-. destruct (IH j eq_refl) as [H1 H2]. simpl.
    rewrite Ea, H2. split; [f_equal; exact H1 | reflexivity].
Qed.

Lemma atoi_range (s : string) : in_int (atoi s).
Proof.
  unfold atoi. destruct (skip_spaces s) as [|c s'].
  - unfold in_int, INT_MIN, INT_MAX, int_bits. simpl. lia.
  - destruct (Ascii.eqb c "-"); [apply wrap_int_range|].
    destruct (Ascii.eqb c "+"); apply wrap_int_range.
Qed.

Lemma digits_value_prefix (ds rest : string) (acc : Z) :
  all_digits ds = true ->
  isdigit (first_char rest) = false ->
  digits_value acc (ds ++ rest) = digits_value acc ds.
Proof.
  revert acc; induction ds as [|c ds IH]; intros acc Hd Hr;
    cbn [append digits_value all_digits] in *.
  - destruct rest as [|a rest]; [reflexivity|].
    cbn [first_char digits_value] in *. now rewrite Hr.
  - apply andb_prop in Hd as [Hc Hd]. rewrite Hc. now apply IH.
Qed.

Lemma isdigit_cases (c : ascii) :
  isdigit c = true ->
  isspace c = false /\ c <> "-"%char /\ c <> "+"%char.
Proof.
  unfold isdigit, isspace. intros H.
  apply andb_prop in H as [H1 H2]. apply Z.leb_le in H1, H2.
  split; [|split].
  - apply orb_false_iff; split; [apply Z.eqb_neq; lia|].
    apply andb_false_iff; right. apply Z.leb_gt; lia.
  - intros ->. vm_compute in H1. now apply H1.
  - intros ->. vm_compute in H1. now apply H1.
Qed.

Lemma atoi_numeric_prefix (ds rest : string) :
  ds <> "" ->
  all_digits ds = true ->
  isdigit (first_char rest) = false ->
  atoi (ds ++ rest) = wrap_int (digits_value 0 ds).
Proof.
  intros Hne Hd Hr. destruct ds as [|c ds]; [contradiction|].
  pose proof Hd as Hd'. cbn [all_digits] in Hd'.
  apply andb_prop in Hd' as [Hc _].
  destruct (isdigit_cases c Hc) as (Hs & Hm & Hp).
  unfold atoi. cbn [append skip_spaces]. rewrite Hs.
  apply Ascii.eqb_neq in Hm, Hp. rewrite Hm, Hp.
  change (String c (ds ++ rest)) with (String c ds ++ rest).
  now rewrite (digits_value_prefix (String c ds) rest 0 Hd Hr).
Qed.

Lemma atoi_not_numeric (s : string) :
  isspace (first_char s) = false ->
  isdigit (first_char s) = false ->
  first_char s <> "-"%char ->
  first_char s <> "+"%char ->
  atoi s = 0.
Proof.
  intros Hs Hd Hm Hp. unfold atoi.
  destruct s as [|c s]; [reflexivity|]. cbn [first_char] in Hs, Hd, Hm, Hp.
  cbn [skip_spaces]. rewrite Hs.
  assert (E : digits_value 0 (String c s) = 0)
    by (cbn [digits_value]; now rewrite Hd).
  apply Ascii.eqb_neq in Hm, Hp. now rewrite Hm, Hp, E.
Qed.

End StringFacts.

(** ** Regular expressions *)

Module RegexFacts.

Import CStr Regex Solaris Summary.

(** The pattern of the backend on some names of [/dev/usb]. *)

Example regexec_names :
  regexec vidpid_regex "a12.1" = true
  /\ regexec vidpid_regex "hub0" = false
  /\ regexec vidpid_regex "." = false
  /\ regexec vidpid_regex ".." = false
  /\ regexec vidpid_regex "A12.1" = true
  /\ regexec vidpid_regex "x1.2y" = true.
Proof. repeat split. Qed.

Example matches_names :
  matches vidpid_regex "a12.1" = true
  /\ matches vidpid_regex "A12.1" = false
  /\ matches vidpid_regex "x1.2y" = false
  /\ matches vidpid_regex "12." = false.
Proof. repeat split. Qed.

Lemma append_nil_inv (s1 s2 : string) : s1 ++ s2 = "" -> s1 = "" /\ s2 = "".
Proof. destruct s1; simpl; [tauto|discriminate]. Qed.


Lemma append_assoc (s1 s2 s3 : string) : (s1 ++ s2) ++ s3 = s1 ++ (s2 ++ s3).
Proof. induction s1; simpl; congruence. Qed.

Lemma lang_nil_nullable (r : regex) (s : string) :
  lang r s -> s = "" -> nullable r = true.
Proof.
  induction 1; intros E; simpl; try discriminate; try reflexivity.
  - apply append_nil_inv in E as [E1 E2]. now rewrite IHlang1, IHlang2.
  - now rewrite IHlang.
  - rewrite IHlang by assumption. apply orb_true_r.
Qed.

Lemma nullable_lang (r : regex) : nullable r = true <-> lang r "".
Proof.
  split; [|intros H; now apply (lang_nil_nullable _ _ H)].
  induction r; simpl; intros H; try discriminate.
  - constructor.
  - apply andb_prop in H as [H1 H2].
    change "" with ("" ++ ""). constructor; auto.
  - apply orb_prop in H as [H|H]; [apply lang_alt_l | apply lang_alt_r]; auto.
  - constructor.
Qed.

Lemma deriv_sound (c : ascii) (r : regex) :
  forall s, lang (deriv c r) s -> lang r (String c s).
Proof.
  induction r; simpl; intros s H.
  - inversion H.
  - inversion H.
  - destruct (Ascii.eqb a c) eqn:E; inversion H; subst.
    apply Ascii.eqb_eq in E; subst. constructor.
  - destruct (existsb (in_range c) l) eqn:E; inversion H; subst.
    now constructor.
  - destruct (nullable r1) eqn:N.
    + inversion H; subst.
      * inversion H3; subst.
        change (String c (s1 ++ s2)) with (String c s1 ++ s2).
        constructor; auto.
      * change (String c s) with ("" ++ String c s).
        constructor; [now apply nullable_lang | auto].
    + inversion H; subst.
      change (String c (s1 ++ s2)) with (String c s1 ++ s2).
      constructor; auto.
  - inversion H; subst; [apply lang_alt_l | apply lang_alt_r]; auto.
  - inversion H; subst.
    change (String c (s1 ++ s2)) with (String c s1 ++ s2).
    constructor; auto.
Qed.

Lemma deriv_complete (c : ascii) (r : regex) (s0 : string) :
  lang r s0 -> forall t, s0 = String c t -> lang (deriv c r) t.
Proof.
  induction 1; intros t E; simpl; try discriminate.
  - injection E as -> <-. rewrite Ascii.eqb_refl. constructor.
  - injection E as -> <-. rewrite H. constructor.
  - destruct s1 as [|a s1]; simpl in E.
    + subst s2. rewrite (lang_nil_nullable _ _ H eq_refl).
      apply lang_alt_r. now apply IHlang2.
    + injection E as -> <-.
      destruct (nullable r1); [apply lang_alt_l|]; constructor; auto.
  - apply lang_alt_l; auto.
  - apply lang_alt_r; auto.
  - destruct s1 as [|a s1]; simpl in E.
    + now apply IHlang2.
    + injection E as -> <-. constructor; auto.
Qed.

Lemma matches_lang (r : regex) (s : string) : matches r s = true <-> lang r s.
Proof.
  revert r; induction s as [|c s IH]; intros r; simpl.
  - apply nullable_lang.
  - rewrite IH. split; [apply deriv_sound|].
    intros H; now apply (deriv_complete _ _ _ H).
Qed.

(** Searching. *)

Lemma matches_prefix_iff (r : regex) (s : string) :
  matches_prefix r s = true <->
  exists mid post, s = mid ++ post /\ matches r mid = true.
Proof.
  revert r; induction s as [|c s IH]; intros r; simpl.
  - rewrite orb_false_r. split.
    + intros H; now exists "", "".
    + intros (mid & post & E & H). symmetry in E.
      apply append_nil_inv in E as [-> _]. exact H.
  - split.
    + intros H; apply orb_prop in H as [H|H].
      * now exists "", (String c s).
      * apply IH in H as (mid & post & -> & H).
        now exists (String c mid), post.
    + intros (mid & post & E & H). destruct mid as [|a mid]; simpl in *.
      * now rewrite H.
      * injection E as <- ->. apply orb_true_iff; right.
        apply IH. now exists mid, post.
Qed.

Lemma regexec_iff (r : regex) (s : string) :
  regexec r s = true <->
  exists pre mid post, s = pre ++ mid ++ post /\ matches r mid = true.
Proof.
  induction s as [|c s IH]; cbn [regexec].
  - rewrite orb_false_r, matches_prefix_iff. split.
    + intros (mid & post & E & H). now exists "", mid, post.
    + intros (pre & mid & post & E & H). symmetry in E.
      apply append_nil_inv in E as [-> E]. simpl in E. now exists mid, post.
  - split.
    + intros H; apply orb_prop in H as [H|H].
      * apply matches_prefix_iff in H as (mid & post & E & H).
        now exists "", mid, post.
      * apply IH in H as (pre & mid & post & -> & H).
        now exists (String c pre), mid, post.
    + intros (pre & mid & post & E & H). apply orb_true_iff.
      destruct pre as [|a pre]; simpl in E.
      * left. apply matches_prefix_iff. now exists mid, post.
      * right. injection E as <- ->. apply IH. now exists pre, mid, post.
Qed.

Lemma all_hex_app (s1 s2 : string) :
  all_hex (s1 ++ s2) = all_hex s1 && all_hex s2.
Proof. induction s1; simpl; [reflexivity|]. now rewrite IHs1, andb_assoc. Qed.

Lemma lang_hex (s : string) :
  lang hex s <-> exists c, s = String c "" /\ is_hex c = true.
Proof.
  split.
  - intros H; inversion H; subst. now exists c.
  - intros (c & -> & H). now constructor.
Qed.

Lemma lang_star_hex (s : string) : lang (Star hex) s <-> all_hex s = true.
Proof.
  split.
  - intros H. remember (Star hex) as r eqn:E.
    induction H; try discriminate; [reflexivity|].
    injection E as ->. apply lang_hex in H as (c & -> & Hc).
    simpl. rewrite Hc. now apply IHlang2.
  - induction s as [|c s IH]; simpl; intros H; [constructor|].
    apply andb_prop in H as [Hc Hs].
    change (String c s) with (String c "" ++ s).
    constructor; [now constructor | auto].
Qed.

Lemma lang_plus_hex (s : string) : lang (Plus hex) s <-> hex_string s.
Proof.
  unfold Plus, hex_string. split.
  - intros H; inversion H; subst.
    apply lang_hex in H2 as (c & -> & Hc). apply lang_star_hex in H4.
    simpl. rewrite Hc, H4. split; [discriminate|reflexivity].
  - intros [Hne H]. destruct s as [|c s]; [contradiction|].
    simpl in H. apply andb_prop in H as [Hc Hs].
    change (String c s) with (String c "" ++ s).
    constructor; [now constructor | now apply lang_star_hex].
Qed.

Lemma lang_vidpid (s : string) : lang vidpid_regex s <-> vidpid_name s.
Proof.
  unfold vidpid_regex, vidpid_name. split.
  - intros H; inversion H; subst. inversion H4; subst. inversion H3; subst.
    exists s1, s3. split; [reflexivity|].
    split; now apply lang_plus_hex.
  - intros (a & b & -> & Ha & Hb).
    constructor; [now apply lang_plus_hex|].
    change ("." ++ b) with (String "." "" ++ b).
    constructor; [constructor | now apply lang_plus_hex].
Qed.

(** The whole of a name matches the pattern of the backend exactly when
    the name is two hexadecimal strings around a dot. *)
Lemma matches_vidpid (s : string) :
  matches vidpid_regex s = true <-> vidpid_name s.
Proof. rewrite matches_lang. apply lang_vidpid. Qed.

End RegexFacts.

(** ** The trace monad and the observations *)

Module TraceFacts.

Import Trace.
Local Open Scope trace_scope.

Lemma value_ret (A : Type) (a : A) : value (ret a) = a.
Proof. reflexivity. Qed.

Lemma events_ret (A : Type) (a : A) : events (ret a) = [].
Proof. reflexivity. Qed.

Lemma value_bind (A B : Type) (m : M A) (f : A -> M B) :
  value (bind m f) = value (f (value m)).
Proof.
  destruct m as [a t]; unfold bind, value; simpl.
  destruct (f a); reflexivity.
Qed.

Lemma events_bind (A B : Type) (m : M A) (f : A -> M B) :
  events (bind m f) = (events m ++ events (f (value m)))%list.
Proof.
  destruct m as [a t]; unfold bind, events, value; simpl.
  destruct (f a); reflexivity.
Qed.

Lemma events_emit (e : event) : events (emit e) = [e].
Proof. reflexivity. Qed.

Lemma resolver_calls_app (t1 t2 : trace) :
  resolver_calls (t1 ++ t2)%list
  = (resolver_calls t1 ++ resolver_calls t2)%list.
Proof.
  induction t1 as [|e t1 IH]; simpl; [reflexivity|].
  destruct e as [lvl msg| | |]; try assumption.
  destruct lvl; try assumption.
  destruct msg; try assumption.
  simpl; now rewrite IH.
Qed.

Lemma sessions_app (t1 t2 : trace) :
  sessions (t1 ++ t2)%list = (sessions t1 ++ sessions t2)%list.
Proof.
  induction t1 as [|e t1 IH]; simpl; [reflexivity|].
  destruct e as [lvl msg| | |]; try assumption.
  destruct lvl; try assumption.
  destruct msg; try assumption.
  simpl; now rewrite IH.
Qed.

Lemma probes_app (t1 t2 : trace) :
  probes (t1 ++ t2)%list = (probes t1 ++ probes t2)%list.
Proof.
  induction t1 as [|e t1 IH]; simpl; [reflexivity|].
  destruct e as [lvl msg| | |]; try assumption.
  destruct lvl; try assumption.
  destruct msg; try assumption.
  simpl; now rewrite IH.
Qed.

Lemma groups_found_app (t1 t2 : trace) :
  groups_found (t1 ++ t2)%list = (groups_found t1 ++ groups_found t2)%list.
Proof.
  induction t1 as [|e t1 IH]; simpl; [reflexivity|].
  destruct e as [lvl msg| | |]; try assumption.
  destruct lvl; try assumption.
  destruct msg; try assumption.
  simpl; now rewrite IH.
Qed.

Lemma resolver_calls_flat_map (A : Type) (f : A -> trace) (l : list A) :
  resolver_calls (flat_map f l) = flat_map (fun a => resolver_calls (f a)) l.
Proof.
  induction l as [|a l IH]; simpl; [reflexivity|].
  now rewrite resolver_calls_app, IH.
Qed.

End TraceFacts.

Create Rewrite HintDb trace.
Create Rewrite HintDb observe.
#[export] Hint Rewrite
  TraceFacts.value_ret TraceFacts.events_ret TraceFacts.value_bind
  TraceFacts.events_bind TraceFacts.events_emit : trace.
#[export] Hint Rewrite
  TraceFacts.resolver_calls_app TraceFacts.sessions_app
  TraceFacts.probes_app TraceFacts.groups_found_app : observe.

(** ** Property lookups *)

Module LookupFacts.

Import CInt CStr Trace Env Solaris Summary.
Local Open Scope trace_scope.

Lemma di_prop_get_int_eq (dn : di_node) (propname : string) (out : option Z) :
  di_prop_get_int dn propname out =
  ((lookup_retval dn propname, lookup_out dn propname out),
   [Log LOG_LEVEL_DEBUG (looking_for_property propname);
    Log LOG_LEVEL_DEBUG (lookup_report dn propname)]).
Proof.
  unfold di_prop_get_int, lookup_out, lookup_report, lookup_retval.
  destruct (di_prop_lookup_ints dn propname) as [retval intp]; simpl.
  destruct (retval =? 1); [destruct out; reflexivity|].
  destruct (retval =? 0); [destruct out; reflexivity|].
  destruct (retval <? 0); destruct out; reflexivity.
Qed.

Lemma lookup_retval_found (dn : di_node) (propname : string) (v : Z) :
  di_props dn propname = Some [v] -> lookup_retval dn propname = 1.
Proof.
  unfold lookup_retval, di_prop_lookup_ints; now intros ->.
Qed.

Lemma lookup_retval_one (dn : di_node) (propname : string) :
  lookup_retval dn propname = 1 ->
  exists v, di_props dn propname = Some [v].
Proof.
  unfold lookup_retval, di_prop_lookup_ints.
  destruct (di_props dn propname) as [[|v [|v' ints]]|]; simpl; try lia.
  intros _; now exists v.
Qed.

Lemma lookup_retval_not_found (dn : di_node) (propname : string) :
  (forall v, di_props dn propname <> Some [v]) ->
  (lookup_retval dn propname =? 1) = false.
Proof.
  intros H; apply Z.eqb_neq; intros E.
  destruct (lookup_retval_one _ _ E) as [v Hv]; now apply (H v).
Qed.

Lemma present_iff (dn : di_node) (propname : string) :
  present dn propname = true <-> di_props dn propname <> None.
Proof.
  unfold present, lookup_retval, di_prop_lookup_ints.
  destruct (di_props dn propname); simpl; split; intros H;
    try discriminate; try reflexivity; try contradiction.
  apply Z.leb_le; lia.
Qed.

Lemma absent_iff (dn : di_node) (propname : string) :
  present dn propname = false <-> di_props dn propname = None.
Proof.
  rewrite <- Bool.not_true_iff_false, present_iff.
  destruct (di_props dn propname); split; intros H;
    try discriminate; try reflexivity.
  - exfalso; apply H; discriminate.
  - intros H'; apply H'; reflexivity.
Qed.

End LookupFacts.

(** ** The resolver *)

Module ResolverFacts.

Import CInt CStr Trace Env Solaris Summary LookupFacts.
Local Open Scope trace_scope.

Ltac step_probe dn p :=
  autorewrite with trace; cbn [value fst events snd];
  destruct (0 <=? lookup_retval dn p); [reflexivity|].

Lemma classify_speed_value (dn : di_node) :
  value (classify_speed dn) = speed_of_presence dn.
Proof.
  unfold classify_speed, speed_of_presence, present.
  rewrite !di_prop_get_int_eq.
  step_probe dn "low-speed". step_probe dn "full-speed".
  step_probe dn "high-speed".
  autorewrite with trace; cbn [value fst].
  destruct (0 <=? lookup_retval dn "super-speed"); reflexivity.
Qed.

Lemma classify_speed_events (dn : di_node) :
  events (classify_speed dn) =
  flat_map (lookup_events dn) (probed_until (present dn) speed_props).
Proof.
  unfold classify_speed, present, lookup_events, speed_props.
  rewrite !di_prop_get_int_eq. cbn [probed_until].
  step_probe dn "low-speed". step_probe dn "full-speed".
  step_probe dn "high-speed".
  autorewrite with trace; cbn [value fst events snd].
  destruct (0 <=? lookup_retval dn "super-speed"); reflexivity.
Qed.

Lemma probes_lookup_events (dn : di_node) (names : list string) :
  probes (flat_map (lookup_events dn) names) = names.
Proof.
  induction names as [|p names IH]; simpl; [reflexivity|].
  unfold lookup_report.
  destruct (di_prop_lookup_ints dn p) as [r ints].
  destruct (r =? 1); [now rewrite IH|].
  destruct (r =? 0); [now rewrite IH|].
  destruct (r <? 0); now rewrite IH.
Qed.

Lemma sessions_lookup_events (dn : di_node) (names : list string) :
  sessions (flat_map (lookup_events dn) names) = [].
Proof.
  induction names as [|p names IH]; simpl; [reflexivity|].
  unfold lookup_report.
  destruct (di_prop_lookup_ints dn p) as [r ints].
  destruct (r =? 1); [exact IH|].
  destruct (r =? 0); [exact IH|].
  destruct (r <? 0); exact IH.
Qed.

Lemma errors_lookup_events (dn : di_node) (names : list string) :
  existsb is_error (flat_map (lookup_events dn) names) = false.
Proof.
  induction names as [|p names IH]; simpl; [reflexivity|exact IH].
Qed.

Lemma lookup_out_found (dn : di_node) (p : string) (v old : Z) :
  di_props dn p = Some [v] -> lookup_out dn p (Some old) = Some v.
Proof.
  intros H. unfold lookup_out. rewrite (lookup_retval_found _ _ _ H).
  unfold di_prop_lookup_ints. rewrite H. reflexivity.
Qed.

(** The four ways through [derive_identity]. *)

Lemma derive_identity_no_busnum (dn : di_node) (path : string) :
  (lookup_retval dn "assigned-address" =? 1) = false ->
  derive_identity dn path = (None, lookup_events dn "assigned-address").
Proof.
  intros H. unfold derive_identity. rewrite di_prop_get_int_eq.
  unfold bind. rewrite H. reflexivity.
Qed.

Lemma derive_identity_no_numconf (dn : di_node) (path : string) :
  lookup_retval dn "assigned-address" = 1 ->
  (lookup_retval dn "usb-num-configs" =? 1) = false ->
  derive_identity dn path =
  (None,
   (lookup_events dn "assigned-address"
    ++ lookup_events dn "usb-num-configs")%list).
Proof.
  intros H1 H2. unfold derive_identity. rewrite !di_prop_get_int_eq.
  unfold bind. rewrite H1, H2. reflexivity.
Qed.

Lemma derive_identity_no_at (dn : di_node) (path : string) :
  lookup_retval dn "assigned-address" = 1 ->
  lookup_retval dn "usb-num-configs" = 1 ->
  strrchr path "@" = None ->
  derive_identity dn path =
  (None,
   (lookup_events dn "assigned-address"
    ++ lookup_events dn "usb-num-configs"
    ++ events (classify_speed dn)
    ++ [Log LOG_LEVEL_ERROR failed_to_parse_device_node])%list).
Proof.
  intros H1 H2 H3. unfold derive_identity. rewrite !di_prop_get_int_eq.
  unfold bind at 1. rewrite H1. cbn [Z.eqb Pos.eqb negb].
  unfold bind at 1. rewrite H2. cbn [Z.eqb Pos.eqb negb].
  rewrite H3. destruct (classify_speed dn) as [s t]. reflexivity.
Qed.

Lemma derive_identity_ok (dn : di_node) (path : string) (b n : Z) (k : nat) :
  di_props dn "assigned-address" = Some [b] ->
  di_props dn "usb-num-configs" = Some [n] ->
  strrchr path "@" = Some k ->
  derive_identity dn path =
  (Some {| session_id :=
             ulong_of_int (int_or (int_shl b 8) (atoi (advance (S k) path)));
           busnum := b;
           devaddr := atoi (advance (S k) path);
           numconf := n;
           speed := value (classify_speed dn) |},
   (lookup_events dn "assigned-address"
    ++ lookup_events dn "usb-num-configs"
    ++ events (classify_speed dn)
    ++ [Log LOG_LEVEL_DEBUG
          (busnum_devaddr_session_id b (atoi (advance (S k) path))
             (ulong_of_int
                (int_or (int_shl b 8) (atoi (advance (S k) path)))))])%list).
Proof.
  intros H1 H2 H3. unfold derive_identity. rewrite !di_prop_get_int_eq.
  rewrite (lookup_out_found _ _ _ _ H1), (lookup_out_found _ _ _ _ H2).
  rewrite (lookup_retval_found _ _ _ H1), (lookup_retval_found _ _ _ H2).
  unfold bind at 1. cbn [Z.eqb Pos.eqb negb].
  unfold bind at 1. cbn [Z.eqb Pos.eqb negb].
  rewrite H3. destruct (classify_speed dn) as [s t]. reflexivity.
Qed.

(** An identity is derived only the last way. *)
Lemma derive_identity_inv (dn : di_node) (path : string)
  (id : device_identity) :
  value (derive_identity dn path) = Some id ->
  exists b n k,
    di_props dn "assigned-address" = Some [b]
    /\ di_props dn "usb-num-configs" = Some [n]
    /\ strrchr path "@" = Some k.
Proof.
  intros H.
  destruct (lookup_retval dn "assigned-address" =? 1) eqn:E1.
  2:{ rewrite derive_identity_no_busnum in H by assumption. discriminate. }
  apply Z.eqb_eq in E1.
  destruct (lookup_retval dn "usb-num-configs" =? 1) eqn:E2.
  2:{ rewrite derive_identity_no_numconf in H by assumption. discriminate. }
  apply Z.eqb_eq in E2.
  destruct (strrchr path "@") as [k|] eqn:E3.
  2:{ rewrite derive_identity_no_at in H by assumption. discriminate. }
  destruct (lookup_retval_one _ _ E1) as [b Hb].
  destruct (lookup_retval_one _ _ E2) as [n Hn].
  now exists b, n, k.
Qed.

(** [solaris_add_device] hands the collection back as it received it. *)
Lemma solaris_add_device_value (w : world) (discdevs : discovered_devs)
  (path : string) :
  value (solaris_add_device w discdevs path) = discdevs.
Proof.
  unfold solaris_add_device.
  destruct (di_init w path); autorewrite with trace; reflexivity.
Qed.

Lemma solaris_add_device_events_closed (w : world)
  (discdevs : discovered_devs) (path : string) :
  di_init w path = None ->
  events (solaris_add_device w discdevs path) =
  [Log LOG_LEVEL_INFO (device_node path); Log LOG_LEVEL_ERROR di_init_failed].
Proof.
  intros H. unfold solaris_add_device. rewrite H. reflexivity.
Qed.

Lemma solaris_add_device_events_open (w : world)
  (discdevs : discovered_devs) (path : string) (dn : di_node) :
  di_init w path = Some dn ->
  events (solaris_add_device w discdevs path) =
  (Log LOG_LEVEL_INFO (device_node path) :: Acquire (Node path)
   :: events (derive_identity dn path) ++ [Release (Node path)])%list.
Proof.
  intros H. unfold solaris_add_device. rewrite H.
  autorewrite with trace. reflexivity.
Qed.

Lemma solaris_add_device_events_indep (w : world)
  (discdevs discdevs' : discovered_devs) (path : string) :
  events (solaris_add_device w discdevs path) =
  events (solaris_add_device w discdevs' path).
Proof.
  unfold solaris_add_device.
  destruct (di_init w path); autorewrite with trace; reflexivity.
Qed.

Lemma derive_identity_shape (dn : di_node) (path : string) :
  exists names tail,
    events (derive_identity dn path)
    = (flat_map (lookup_events dn) names ++ tail)%list
    /\ (tail = []
        \/ tail = [Log LOG_LEVEL_ERROR failed_to_parse_device_node]
        \/ exists id, value (derive_identity dn path) = Some id /\
             tail = [Log LOG_LEVEL_DEBUG
                       (busnum_devaddr_session_id (busnum id) (devaddr id)
                          (session_id id))]).
Proof.
  destruct (lookup_retval dn "assigned-address" =? 1) eqn:E1.
  2:{ exists ["assigned-address"], [].
      rewrite derive_identity_no_busnum by assumption.
      split; [reflexivity | now left]. }
  apply Z.eqb_eq in E1.
  destruct (lookup_retval dn "usb-num-configs" =? 1) eqn:E2.
  2:{ exists ["assigned-address"; "usb-num-configs"], [].
      rewrite derive_identity_no_numconf by assumption.
      split; [reflexivity | now left]. }
  apply Z.eqb_eq in E2.
  exists ("assigned-address" :: "usb-num-configs"
          :: probed_until (present dn) speed_props).
  destruct (strrchr path "@") as [k|] eqn:E3.
  - destruct (lookup_retval_one _ _ E1) as [b Hb].
    destruct (lookup_retval_one _ _ E2) as [n Hn].
    rewrite (derive_identity_ok _ _ _ _ _ Hb Hn E3).
    eexists; split.
    + cbn [events snd flat_map]. rewrite classify_speed_events.
      rewrite <- !app_assoc. reflexivity.
    + right; right. eexists; split; reflexivity.
  - rewrite derive_identity_no_at by assumption.
    eexists; split.
    + cbn [events snd flat_map]. rewrite classify_speed_events.
      rewrite <- !app_assoc. reflexivity.
    + right; now left.
Qed.

Lemma resolver_calls_lookup_events (dn : di_node) (names : list string) :
  resolver_calls (flat_map (lookup_events dn) names) = [].
Proof.
  induction names as [|p names IH]; simpl; [reflexivity|exact IH].
Qed.

Lemma resolver_calls_derive_identity (dn : di_node) (path : string) :
  resolver_calls (events (derive_identity dn path)) = [].
Proof.
  destruct (derive_identity_shape dn path) as (names & tail & -> & H).
  rewrite TraceFacts.resolver_calls_app, resolver_calls_lookup_events.
  destruct H as [->|[->|(id & _ & ->)]]; reflexivity.
Qed.

Lemma resolver_calls_add_device (w : world) (dd : discovered_devs)
  (path : string) :
  resolver_calls (events (solaris_add_device w dd path)) = [path].
Proof.
  destruct (di_init w path) as [dn|] eqn:E.
  - rewrite (solaris_add_device_events_open _ dd _ _ E). cbn [resolver_calls].
    rewrite TraceFacts.resolver_calls_app, resolver_calls_derive_identity.
    reflexivity.
  - rewrite (solaris_add_device_events_closed _ dd _ E). reflexivity.
Qed.

Lemma sessions_lookup (dn : di_node) (p : string) :
  sessions (lookup_events dn p) = [].
Proof.
  pose proof (sessions_lookup_events dn [p]) as H.
  cbn [flat_map] in H. now rewrite app_nil_r in H.
Qed.

Lemma sessions_classify_speed (dn : di_node) :
  sessions (events (classify_speed dn)) = [].
Proof. rewrite classify_speed_events. apply sessions_lookup_events. Qed.

Lemma sessions_derive_identity (dn : di_node) (path : string) :
  sessions (events (derive_identity dn path)) =
  reported (value (derive_identity dn path)).
Proof.
  destruct (lookup_retval dn "assigned-address" =? 1) eqn:E1.
  2:{ rewrite derive_identity_no_busnum by assumption. apply sessions_lookup. }
  apply Z.eqb_eq in E1.
  destruct (lookup_retval dn "usb-num-configs" =? 1) eqn:E2.
  2:{ rewrite derive_identity_no_numconf by assumption.
      cbn [events snd value fst reported].
      now rewrite TraceFacts.sessions_app, !sessions_lookup. }
  apply Z.eqb_eq in E2.
  destruct (strrchr path "@") as [k|] eqn:E3.
  - destruct (lookup_retval_one _ _ E1) as [b Hb].
    destruct (lookup_retval_one _ _ E2) as [n Hn].
    rewrite (derive_identity_ok _ _ _ _ _ Hb Hn E3).
    cbn [events snd value fst reported busnum devaddr session_id].
    now rewrite !TraceFacts.sessions_app, !sessions_lookup,
      sessions_classify_speed.
  - rewrite derive_identity_no_at by assumption.
    cbn [events snd value fst reported].
    now rewrite !TraceFacts.sessions_app, !sessions_lookup,
      sessions_classify_speed.
Qed.

Lemma sessions_add_device (w : world) (dd : discovered_devs) (path : string) :
  sessions (events (solaris_add_device w dd path)) =
  match di_init w path with
  | Some dn => reported (value (derive_identity dn path))
  | None => []
  end.
Proof.
  destruct (di_init w path) as [dn|] eqn:E.
  - rewrite (solaris_add_device_events_open _ dd _ _ E).
    cbn [sessions]. rewrite TraceFacts.sessions_app, sessions_derive_identity.
    apply app_nil_r.
  - now rewrite (solaris_add_device_events_closed _ dd _ E).
Qed.

Lemma last_event_add_device (w : world) (dd : discovered_devs) (path : string)
  (dn : di_node) (e : event) :
  di_init w path = Some dn ->
  last (events (solaris_add_device w dd path)) e = Release (Node path).
Proof.
  intros E. rewrite (solaris_add_device_events_open _ dd _ _ E).
  change (Log LOG_LEVEL_INFO (device_node path) :: Acquire (Node path)
          :: events (derive_identity dn path) ++ [Release (Node path)])%list
    with (([Log LOG_LEVEL_INFO (device_node path); Acquire (Node path)]
           ++ events (derive_identity dn path)) ++ [Release (Node path)])%list.
  apply last_last.
Qed.

End ResolverFacts.

(** ** The walker *)

Module WalkerFacts.

Import CInt CStr Regex Trace Env Solaris Summary.
Import StringFacts LookupFacts ResolverFacts.
Local Open Scope trace_scope.

(** The walker hands the collection back as it received it, and what it
    logs does not depend on the collection. *)
Lemma browse_instance_value (w : world) (vp : string)
  (dd : discovered_devs) (inst : string) :
  value (browse_instance w vp dd inst) = dd.
Proof.
  unfold browse_instance.
  destruct (Ascii.eqb "." (first_char inst)); [reflexivity|].
  autorewrite with trace.
  destruct (sizeof_devstat_path <=? _); [reflexivity|].
  destruct (realpath w _); [|reflexivity].
  autorewrite with trace.
  destruct (negb _); [reflexivity|].
  destruct (strrchr _ _); autorewrite with trace;
    apply solaris_add_device_value.
Qed.

Lemma browse_instance_events_indep (w : world) (vp : string)
  (dd dd' : discovered_devs) (inst : string) :
  events (browse_instance w vp dd inst)
  = events (browse_instance w vp dd' inst).
Proof.
  unfold browse_instance.
  destruct (Ascii.eqb "." (first_char inst)); [reflexivity|].
  autorewrite with trace.
  destruct (sizeof_devstat_path <=? _); [reflexivity|].
  destruct (realpath w _); [|reflexivity].
  autorewrite with trace.
  destruct (negb _); [reflexivity|].
  destruct (strrchr _ _); autorewrite with trace;
    now rewrite (solaris_add_device_events_indep w dd dd').
Qed.

Lemma browse_instances_value (w : world) (vp : string)
  (dd : discovered_devs) (insts : list string) :
  value (browse_instances w vp dd insts) = dd.
Proof.
  revert dd; induction insts as [|i insts IH]; intros dd; simpl; [reflexivity|].
  autorewrite with trace. rewrite browse_instance_value. apply IH.
Qed.

(** The instances of a group are gone through one by one, each from the
    same collection. *)
Lemma browse_instances_events (w : world) (vp : string)
  (dd : discovered_devs) (insts : list string) :
  events (browse_instances w vp dd insts) =
  flat_map (fun inst => events (browse_instance w vp dd inst)) insts.
Proof.
  induction insts as [|i insts IH]; simpl; [reflexivity|].
  autorewrite with trace. rewrite browse_instance_value. now rewrite IH.
Qed.

Lemma browse_vidpid_value (w : world) (dd : discovered_devs)
  (d_name : string) :
  value (browse_vidpid w dd d_name) = dd.
Proof.
  unfold browse_vidpid.
  destruct (negb (regexec _ _)); [now autorewrite with trace|].
  autorewrite with trace.
  destruct (sizeof_vidpid_path <=? _); [reflexivity|].
  destruct (opendir w _); [|reflexivity].
  autorewrite with trace. apply browse_instances_value.
Qed.

Lemma browse_instances_events_indep (w : world) (vp : string)
  (dd dd' : discovered_devs) (insts : list string) :
  events (browse_instances w vp dd insts)
  = events (browse_instances w vp dd' insts).
Proof.
  rewrite !browse_instances_events. apply flat_map_ext. intros i.
  apply browse_instance_events_indep.
Qed.

Lemma browse_vidpid_events_indep (w : world) (dd dd' : discovered_devs)
  (d_name : string) :
  events (browse_vidpid w dd d_name) = events (browse_vidpid w dd' d_name).
Proof.
  unfold browse_vidpid.
  destruct (negb (regexec _ _)); [now autorewrite with trace|].
  autorewrite with trace.
  destruct (sizeof_vidpid_path <=? _); [reflexivity|].
  destruct (opendir w _); [|reflexivity].
  autorewrite with trace.
  now rewrite (browse_instances_events_indep w _ dd dd').
Qed.

Lemma browse_dev_usb_value (w : world) (dd : discovered_devs)
  (entries : list string) :
  value (browse_dev_usb w dd entries) = dd.
Proof.
  revert dd; induction entries as [|e entries IH]; intros dd; simpl;
    [reflexivity|].
  autorewrite with trace. rewrite browse_vidpid_value. apply IH.
Qed.

(** So are the entries of [/dev/usb]. *)
Lemma browse_dev_usb_events (w : world) (dd : discovered_devs)
  (entries : list string) :
  events (browse_dev_usb w dd entries) =
  flat_map (fun d_name => events (browse_vidpid w dd d_name)) entries.
Proof.
  induction entries as [|e entries IH]; simpl; [reflexivity|].
  autorewrite with trace. rewrite browse_vidpid_value. now rewrite IH.
Qed.

Lemma browse_instance_resolved (w : world) (vp : string) (dd : discovered_devs)
  (inst dp : string) :
  Ascii.eqb "." (first_char inst) = false ->
  strlen (devstat_path_of vp inst) < sizeof_devstat_path ->
  realpath w (devstat_path_of vp inst) = Some dp ->
  strncmp dp devices devices_len = 0 ->
  events (browse_instance w vp dd inst) =
  (instance_header vp inst dp
   ++ events (solaris_add_device w dd (device_node_path_of dp)))%list.
Proof.
  unfold devstat_path_of, instance_header, device_node_path_of, browse_instance.
  intros H1 H2 H3 H4. rewrite H1.
  apply Z.leb_gt in H2. rewrite H3, H4.
  autorewrite with trace. cbn [events snd usbi_dbg usbi_info emit].
  rewrite H2. autorewrite with trace. cbn [Z.eqb negb].
  destruct (strrchr (advance devices_len dp) ":");
    autorewrite with trace; reflexivity.
Qed.

Lemma browse_instance_shape (w : world) (vp : string) (dd : discovered_devs)
  (inst : string) :
  quiet (events (browse_instance w vp dd inst))
  \/ exists pre dp,
       quiet pre
       /\ realpath w (devstat_path_of vp inst) = Some dp
       /\ events (browse_instance w vp dd inst) =
          (pre
           ++ events (solaris_add_device w dd (device_node_path_of dp)))%list.
Proof.
  destruct (Ascii.eqb "." (first_char inst)) eqn:H1.
  { left. unfold browse_instance. rewrite H1. now split. }
  destruct (sizeof_devstat_path <=? strlen (devstat_path_of vp inst)) eqn:H2.
  { left. unfold browse_instance. rewrite H1.
    unfold devstat_path_of in H2. autorewrite with trace. rewrite H2.
    now split. }
  destruct (realpath w (devstat_path_of vp inst)) as [dp|] eqn:H3.
  2:{ left. unfold browse_instance. rewrite H1.
      unfold devstat_path_of in H2, H3. autorewrite with trace.
      rewrite H2, H3. now split. }
  destruct (strncmp dp devices devices_len =? 0) eqn:H4.
  2:{ left. unfold browse_instance. rewrite H1.
      unfold devstat_path_of in H2, H3. autorewrite with trace. rewrite H2, H3.
      autorewrite with trace. rewrite H4. now split. }
  right. exists (instance_header vp inst dp), dp.
  split; [|split; [reflexivity|]].
  - unfold instance_header. destruct (strrchr _ _); now split.
  - apply browse_instance_resolved; try assumption.
    + now apply Z.leb_gt.
    + now apply Z.eqb_eq.
Qed.

Lemma sessions_browse_instance (w : world) (vp : string) (dd : discovered_devs)
  (inst path : string) :
  resolver_calls (events (browse_instance w vp dd inst)) = [path] ->
  sessions (events (browse_instance w vp dd inst)) =
  sessions (events (solaris_add_device w dd path)).
Proof.
  intros H.
  destruct (browse_instance_shape w vp dd inst)
    as [[Q _]|(pre & dp & [Q1 Q2] & _ & E)].
  - rewrite Q in H; discriminate.
  - rewrite E in H |- *.
    rewrite TraceFacts.resolver_calls_app, Q1, resolver_calls_add_device in H.
    injection H as <-. now rewrite TraceFacts.sessions_app, Q2.
Qed.

Lemma browse_vidpid_skipped (w : world) (dd : discovered_devs)
  (d_name : string) :
  regexec vidpid_regex d_name = false ->
  events (browse_vidpid w dd d_name) =
  if Ascii.eqb "." (first_char d_name) then []
  else [Log LOG_LEVEL_DEBUG (skipping d_name)].
Proof.
  intros H. unfold browse_vidpid. rewrite H. cbn [negb].
  destruct (Ascii.eqb "." (first_char d_name)); reflexivity.
Qed.

Lemma browse_vidpid_browsed (w : world) (dd : discovered_devs)
  (d_name : string) (insts : list string) :
  regexec vidpid_regex d_name = true ->
  strlen (dev_usb ++ "/" ++ d_name) < sizeof_vidpid_path ->
  opendir w (dev_usb ++ "/" ++ d_name) = Some insts ->
  events (browse_vidpid w dd d_name) =
  ([Log LOG_LEVEL_DEBUG (found d_name);
    Acquire (Directory (dev_usb ++ "/" ++ d_name));
    Log LOG_LEVEL_DEBUG (start_browsing (dev_usb ++ "/" ++ d_name))]
   ++ flat_map
        (fun inst =>
           events (browse_instance w (dev_usb ++ "/" ++ d_name) dd inst))
        insts
   ++ [Log LOG_LEVEL_DEBUG (stop_browsing (dev_usb ++ "/" ++ d_name))])%list.
Proof.
  intros H1 H2 H3. unfold browse_vidpid. rewrite H1. cbn [negb].
  apply Z.leb_gt in H2. autorewrite with trace. rewrite H2, H3.
  autorewrite with trace. rewrite browse_instances_events. reflexivity.
Qed.

Lemma get_device_list_regcomp_failed (w : world) (dd : discovered_devs) :
  regcomp_ok w = false ->
  solaris_get_device_list w dd =
  ((LIBUSB_ERROR_NO_MEM, dd), [Log LOG_LEVEL_ERROR regcomp_failed]).
Proof. intros H. unfold solaris_get_device_list. now rewrite H. Qed.

Lemma get_device_list_opendir_failed (w : world) (dd : discovered_devs) :
  regcomp_ok w = true ->
  opendir w dev_usb = None ->
  solaris_get_device_list w dd =
  ((LIBUSB_ERROR_ACCESS, dd),
   [Acquire Compiled_regex; Log LOG_LEVEL_ERROR (opendir_failed dev_usb);
    Release Compiled_regex]).
Proof. intros H1 H2. unfold solaris_get_device_list. now rewrite H1, H2. Qed.

Lemma get_device_list_browsed (w : world) (dd : discovered_devs)
  (entries : list string) :
  regcomp_ok w = true ->
  opendir w dev_usb = Some entries ->
  value (solaris_get_device_list w dd) = (LIBUSB_ERROR_NO_DEVICE, dd)
  /\ events (solaris_get_device_list w dd) =
     ([Acquire Compiled_regex; Acquire (Directory dev_usb);
       Log LOG_LEVEL_DEBUG (start_browsing dev_usb)]
      ++ flat_map (fun d_name => events (browse_vidpid w dd d_name)) entries
      ++ [Log LOG_LEVEL_DEBUG (stop_browsing dev_usb);
          Release (Directory dev_usb)])%list.
Proof.
  intros H1 H2. unfold solaris_get_device_list. rewrite H1, H2. cbn [negb].
  autorewrite with trace. rewrite browse_dev_usb_value, browse_dev_usb_events.
  split; reflexivity.
Qed.

Lemma get_device_list_discdevs (w : world) (dd : discovered_devs) :
  snd (value (solaris_get_device_list w dd)) = dd.
Proof.
  destruct (regcomp_ok w) eqn:H1.
  - destruct (opendir w dev_usb) as [entries|] eqn:H2.
    + destruct (get_device_list_browsed w dd entries H1 H2) as [-> _].
      reflexivity.
    + now rewrite get_device_list_opendir_failed.
  - now rewrite get_device_list_regcomp_failed.
Qed.

Lemma browse_instances_cons (w : world) (vp : string) (dd : discovered_devs)
  (inst : string) (rest : list string) :
  events (browse_instances w vp dd (inst :: rest)) =
  (events (browse_instance w vp dd inst)
   ++ events (browse_instances w vp dd rest))%list.
Proof. now rewrite !browse_instances_events. Qed.

Lemma browse_dev_usb_cons (w : world) (dd : discovered_devs)
  (d_name : string) (rest : list string) :
  events (browse_dev_usb w dd (d_name :: rest)) =
  (events (browse_vidpid w dd d_name)
   ++ events (browse_dev_usb w dd rest))%list.
Proof. now rewrite !browse_dev_usb_events. Qed.

Lemma discarded_candidate_skipped (w : world) (vp : string)
  (dd : discovered_devs) (inst path : string) (rest : list string) :
  resolver_calls (events (browse_instance w vp dd inst)) = [path] ->
  sessions (events (solaris_add_device w dd path)) = [] ->
  sessions (events (browse_instances w vp dd (inst :: rest)))
  = sessions (events (browse_instances w vp dd rest))
  /\ resolver_calls (events (browse_instances w vp dd (inst :: rest)))
     = path :: resolver_calls (events (browse_instances w vp dd rest)).
Proof.
  intros Hc Hs. rewrite browse_instances_cons.
  rewrite TraceFacts.sessions_app, TraceFacts.resolver_calls_app.
  rewrite (sessions_browse_instance _ _ _ _ _ Hc), Hs, Hc. now split.
Qed.

Lemma resolver_calls_skipped (w : world) (dd : discovered_devs)
  (d_name : string) :
  regexec vidpid_regex d_name = false ->
  resolver_calls (events (browse_vidpid w dd d_name)) = []
  /\ groups_found (events (browse_vidpid w dd d_name)) = [].
Proof.
  intros H. rewrite (browse_vidpid_skipped w dd d_name H).
  destruct (Ascii.eqb "." (first_char d_name)); now split.
Qed.

Lemma resolver_calls_get_device_list (w : world) (dd : discovered_devs)
  (path : string) :
  In path (resolver_calls (events (solaris_get_device_list w dd))) ->
  exists entries d_name,
    opendir w dev_usb = Some entries
    /\ In d_name entries
    /\ In path (resolver_calls (events (browse_vidpid w dd d_name))).
Proof.
  destruct (regcomp_ok w) eqn:H1.
  2:{ now rewrite get_device_list_regcomp_failed. }
  destruct (opendir w dev_usb) as [entries|] eqn:H2.
  2:{ now rewrite get_device_list_opendir_failed. }
  destruct (get_device_list_browsed w dd entries H1 H2) as [_ ->].
  rewrite !TraceFacts.resolver_calls_app, TraceFacts.resolver_calls_flat_map.
  cbn [resolver_calls app]. rewrite app_nil_r.
  intros H. apply in_flat_map in H as (d_name & Hd & Hp).
  now exists entries, d_name.
Qed.

Lemma resolver_calls_instance_header (vp inst dp : string) :
  resolver_calls (instance_header vp inst dp) = [].
Proof.
  unfold instance_header.
  destruct (strrchr (advance devices_len dp) ":"); reflexivity.
Qed.

End WalkerFacts.

(** * The claims of the specification *)

Import CInt CStr Regex Trace Env Solaris Summary Scenarios.
Import CIntFacts StringFacts RegexFacts LookupFacts ResolverFacts WalkerFacts.
Local Open Scope trace_scope.

(** ** C1: what the resolver does with a derived identity *)

(** C1, as stated, fails.  On [world_one_device] the derivation succeeds
    (bus 0x12, address 0x34, session 0x1234), and yet the collection handed
    to [solaris_add_device] and to [solaris_get_device_list] comes back
    empty: no record is appended. *)
Lemma add_device_registers_nothing :
  (exists id,
     value (derive_identity node_bus_0x12 "/pci@0,0/pci106b,3f@6/device@52")
     = Some id)
  /\ sessions (events (solaris_get_device_list world_one_device []))
     = [(18, 52, 4660)]
  /\ value (solaris_add_device world_one_device []
              "/pci@0,0/pci106b,3f@6/device@52") = []
  /\ value (solaris_get_device_list world_one_device [])
     = (LIBUSB_ERROR_NO_DEVICE, []).
Proof.
  split; [eexists; vm_compute; reflexivity|].
  repeat split; vm_compute; reflexivity.
Qed.

(** C1, amended.  For every path whose identity derivation succeeds (the
    node opens, [assigned-address] and [usb-num-configs] are found, the path
    contains an [@]) the resolver derives the identity once and reports it
    in exactly one trace line; it appends nothing to the collection of
    discovered devices, which [solaris_add_device] and the whole discovery
    pass hand back as they received it. *)
Theorem identity_derived_once_nothing_registered
  (w : world) (discdevs : discovered_devs) (path : string) (dn : di_node)
  (b n : Z) (k : nat) :
  di_init w path = Some dn ->
  di_props dn "assigned-address" = Some [b] ->
  di_props dn "usb-num-configs" = Some [n] ->
  strrchr path "@" = Some k ->
  (exists id,
     value (derive_identity dn path) = Some id
     /\ sessions (events (solaris_add_device w discdevs path))
        = [(busnum id, devaddr id, session_id id)])
  /\ value (solaris_add_device w discdevs path) = discdevs
  /\ snd (value (solaris_get_device_list w discdevs)) = discdevs.
Proof.
  intros Hn Hb Hc Hat. split; [|split].
  - rewrite sessions_add_device, Hn.
    rewrite (derive_identity_ok _ _ _ _ _ Hb Hc Hat).
    eexists; split; reflexivity.
  - apply solaris_add_device_value.
  - apply get_device_list_discdevs.
Qed.

(** The amended C1 on [world_one_device]. *)
Lemma identity_derived_once_nothing_registered_witness :
  (exists id,
     value (derive_identity node_bus_0x12 "/pci@0,0/pci106b,3f@6/device@52")
     = Some id
     /\ sessions (events (solaris_add_device world_one_device []
                            "/pci@0,0/pci106b,3f@6/device@52"))
        = [(busnum id, devaddr id, session_id id)])
  /\ value (solaris_add_device world_one_device []
              "/pci@0,0/pci106b,3f@6/device@52") = []
  /\ snd (value (solaris_get_device_list world_one_device [])) = [].
Proof.
  apply (identity_derived_once_nothing_registered world_one_device []
           "/pci@0,0/pci106b,3f@6/device@52" node_bus_0x12 18 1 28%nat);
    reflexivity.
Defined.

(** ** C2: the session identifier *)

(** C2.  For every successfully resolved device the session identifier is
    [(busnum << 8) | devaddr], computed on the raw [int] values, where
    [busnum] is the value of [assigned-address] and [devaddr] the number
    parsed after the last [@]; no hypothesis bounds either value by 8 bits.
    Where the shift does not overflow and the address is not negative this
    is the integer [Z.lor (Z.shiftl busnum 8) devaddr]; bus 0x12 and address
    0x34 give 0x1234.  What follows the last [@] is what follows an [@]
    and contains no other. *)
Theorem session_id_packs_busnum_and_devaddr
  (w : world) (discdevs : discovered_devs) (path : string) (dn : di_node)
  (b n : Z) (k : nat) :
  di_init w path = Some dn ->
  di_props dn "assigned-address" = Some [b] ->
  di_props dn "usb-num-configs" = Some [n] ->
  strrchr path "@" = Some k ->
  exists id,
    value (derive_identity dn path) = Some id
    /\ busnum id = b
    /\ devaddr id = atoi (advance (S k) path)
    /\ path = truncate_at k path ++ String "@" (advance (S k) path)
    /\ strchr (advance (S k) path) "@" = None
    /\ session_id id
       = ulong_of_int (int_or (int_shl (busnum id) 8) (devaddr id))
    /\ sessions (events (solaris_add_device w discdevs path))
       = [(busnum id, devaddr id, session_id id)]
    /\ (0 <= busnum id < 2 ^ 23 -> 0 <= devaddr id ->
        session_id id = Z.lor (Z.shiftl (busnum id) 8) (devaddr id))
    /\ (busnum id = 18 -> devaddr id = 52 -> session_id id = 4660).
Proof.
  intros Hn Hb Hc Hat.
  eexists.
  split; [rewrite (derive_identity_ok _ _ _ _ _ Hb Hc Hat); reflexivity|].
  cbn [busnum devaddr session_id].
  split; [reflexivity|]. split; [reflexivity|].
  destruct (strrchr_last path "@" k Hat) as [Hs Hl].
  split; [exact Hs|]. split; [exact Hl|]. split; [reflexivity|].
  split; [|split].
  - rewrite sessions_add_device, Hn.
    now rewrite (derive_identity_ok _ _ _ _ _ Hb Hc Hat).
  - intros Hr Hd. apply session_id_in_range; try assumption. apply atoi_range.
  - intros -> ->. reflexivity.
Qed.

(** C2 on the device of [world_one_device]: 0x12, 0x34, 0x1234. *)
Lemma session_id_packs_busnum_and_devaddr_witness :
  exists id,
    value (derive_identity node_bus_0x12 "/pci@0,0/pci106b,3f@6/device@52")
    = Some id
    /\ busnum id = 18
    /\ devaddr id = 52
    /\ session_id id = 4660.
Proof.
  destruct (session_id_packs_busnum_and_devaddr world_one_device []
              "/pci@0,0/pci106b,3f@6/device@52" node_bus_0x12 18 1 28%nat
              eq_refl eq_refl eq_refl eq_refl)
    as (id & Hid & Hb & Hd & _ & _ & Hs & _ & _ & H).
  exists id. repeat split; try assumption.
  apply H; assumption.
Defined.

(** ** C3: the number of configurations *)

(** C3, as stated, fails.  A node without [usb-num-configs] yields no
    identity at all (no default of 1 is used), and a node whose
    [usb-num-configs] is 0 yields an identity with [numconf = 0]. *)
Lemma missing_numconf_discards :
  value (derive_identity node_without_numconf "/pci@0,0/device@7") = None
  /\ sessions (events (solaris_add_device world_without_numconf []
                         "/pci@0,0/device@7")) = []
  /\ exists id,
       value (derive_identity node_zero_configs "/pci@0,0/device@7") = Some id
       /\ numconf id = 0.
Proof.
  split; [reflexivity|]. split; [reflexivity|].
  eexists; split; reflexivity.
Qed.

(** C3, amended.  If the lookup of [usb-num-configs] does not return
    exactly one value the candidate is discarded: no identity is derived,
    none is reported, and the node handle is released last.  In every
    identity that is derived, [numconf] is the single value of the
    [usb-num-configs] property of the node. *)
Theorem numconf_is_required
  (w : world) (discdevs : discovered_devs) (path : string) (dn : di_node) :
  di_init w path = Some dn ->
  (forall v, di_props dn "usb-num-configs" <> Some [v]) ->
  value (derive_identity dn path) = None
  /\ sessions (events (solaris_add_device w discdevs path)) = []
  /\ last (events (solaris_add_device w discdevs path))
       (Acquire (Node path)) = Release (Node path)
  /\ forall (dn' : di_node) (path' : string) (id : device_identity),
       value (derive_identity dn' path') = Some id ->
       di_props dn' "usb-num-configs" = Some [numconf id].
Proof.
  intros Hn Hc.
  assert (Hnone : value (derive_identity dn path) = None).
  { destruct (value (derive_identity dn path)) as [id|] eqn:E; [|reflexivity].
    destruct (derive_identity_inv _ _ _ E) as (b & n & k & _ & Hc' & _).
    now contradiction (Hc n). }
  split; [exact Hnone|]. split; [|split].
  - now rewrite sessions_add_device, Hn, Hnone.
  - now apply last_event_add_device with (dn := dn).
  - intros dn' path' id E.
    destruct (derive_identity_inv _ _ _ E) as (b & n & k & Hb & Hc' & Hat).
    rewrite (derive_identity_ok _ _ _ _ _ Hb Hc' Hat) in E.
    injection E as <-. exact Hc'.
Qed.

(** The amended C3 on a node that lacks [usb-num-configs]. *)
Lemma numconf_is_required_witness :
  value (derive_identity node_without_numconf "/pci@0,0/device@7") = None
  /\ sessions (events (solaris_add_device world_without_numconf []
                         "/pci@0,0/device@7")) = []
  /\ last (events (solaris_add_device world_without_numconf []
                     "/pci@0,0/device@7"))
       (Acquire (Node "/pci@0,0/device@7"))
     = Release (Node "/pci@0,0/device@7").
Proof.
  destruct (numconf_is_required world_without_numconf []
              "/pci@0,0/device@7" node_without_numconf eq_refl)
    as (H1 & H2 & H3 & _).
  - intros v; vm_compute; discriminate.
  - repeat split; assumption.
Defined.

(** ** C4: the filter on the entries of [/dev/usb] *)

(** C4, as stated, fails.  The name [x1.2y] is not of the form hex.hex, and
    yet the entry is browsed as a group and its instance reaches the
    resolver. *)
Lemma unanchored_name_is_browsed :
  matches vidpid_regex "x1.2y" = false
  /\ groups_found (events (solaris_get_device_list world_unanchored []))
     = ["x1.2y"]
  /\ resolver_calls (events (solaris_get_device_list world_unanchored []))
     = ["/pci@0,0/device@2"].
Proof. repeat split; vm_compute; reflexivity. Qed.

(** C4, amended.  An entry of [/dev/usb] passes the filter exactly when
    some substring of its name has the form hex.hex (the pattern is searched
    for, it is not anchored).  An entry that does not pass is skipped with at
    most a trace line, and every path the resolver is entered with during a
    discovery pass comes from an entry that passes. *)
Theorem group_filter_is_a_search
  (w : world) (discdevs : discovered_devs) (d_name : string) :
  (regexec vidpid_regex d_name = true <->
   exists pre mid post, d_name = pre ++ mid ++ post /\ vidpid_name mid)
  /\ (regexec vidpid_regex d_name = false ->
      events (browse_vidpid w discdevs d_name)
      = if Ascii.eqb "." (first_char d_name) then []
        else [Log LOG_LEVEL_DEBUG (skipping d_name)])
  /\ (forall path : string,
        In path (resolver_calls (events (solaris_get_device_list w discdevs)))
        ->
        exists entries name,
          opendir w dev_usb = Some entries
          /\ In name entries
          /\ regexec vidpid_regex name = true
          /\ In path (resolver_calls (events (browse_vidpid w discdevs name)))).
Proof.
  split; [|split].
  - rewrite regexec_iff. split; intros (pre & mid & post & E & H);
      exists pre, mid, post; (split; [exact E|]); now apply matches_vidpid.
  - apply browse_vidpid_skipped.
  - intros path H.
    apply resolver_calls_get_device_list in H
      as (entries & name & Ho & Hi & Hp).
    exists entries, name. repeat split; try assumption.
    destruct (regexec vidpid_regex name) eqn:E; [reflexivity|].
    destruct (resolver_calls_skipped w discdevs name E) as [Hr _].
    rewrite Hr in Hp. contradiction.
Qed.

(** The amended C4: [hub0] is skipped, [x1.2y] is browsed. *)
Lemma group_filter_is_a_search_witness :
  events (browse_vidpid world_one_device [] "hub0")
  = [Log LOG_LEVEL_DEBUG (skipping "hub0")]
  /\ exists entries name,
       opendir world_unanchored dev_usb = Some entries
       /\ In name entries
       /\ regexec vidpid_regex name = true
       /\ In "/pci@0,0/device@2"
            (resolver_calls (events (browse_vidpid world_unanchored [] name))).
Proof.
  split.
  - apply (proj1 (proj2 (group_filter_is_a_search world_one_device [] "hub0"))).
    reflexivity.
  - apply (proj2 (proj2 (group_filter_is_a_search world_unanchored [] ""))).
    vm_compute. now left.
Defined.

(** ** C5: from the resolved path to the node path *)

(** C5, as stated, fails.  For a resolved path with two colons the resolver
    is entered with the path cut at the last colon, [.../device@2:a12.1],
    where the claim has it cut at the first one, [.../device@2]. *)
Lemma last_colon_not_first :
  resolver_calls (events (solaris_get_device_list world_two_colons []))
  = ["/pci@0,0/device@2:a12.1"]
  /\ spec_first_colon_path "/devices/pci@0,0/device@2:a12.1:devstat"
     = "/pci@0,0/device@2".
Proof. split; vm_compute; reflexivity. Qed.

(** C5, amended.  For every resolved path that begins with [/devices] the
    walker strips that prefix and cuts the remainder at its last colon: what
    is removed starts at a colon and contains no other.  Without a colon the
    remainder is passed to the resolver as it is, after a warning. *)
Theorem walker_strips_prefix_and_last_colon
  (w : world) (vidpid_path : string) (discdevs : discovered_devs)
  (inst device_path : string) :
  Ascii.eqb "." (first_char inst) = false ->
  strlen (devstat_path_of vidpid_path inst) < sizeof_devstat_path ->
  realpath w (devstat_path_of vidpid_path inst) = Some device_path ->
  strncmp device_path devices devices_len = 0 ->
  let rest := advance devices_len device_path in
  device_path = devices ++ rest
  /\ resolver_calls (events (browse_instance w vidpid_path discdevs inst))
     = [device_node_path_of device_path]
  /\ (forall colon : nat,
        strrchr rest ":" = Some colon ->
        device_node_path_of device_path = truncate_at colon rest
        /\ rest = device_node_path_of device_path
                  ++ String ":" (advance (S colon) rest)
        /\ strchr (advance (S colon) rest) ":" = None)
  /\ (strchr rest ":" = None ->
      device_node_path_of device_path = rest
      /\ events (browse_instance w vidpid_path discdevs inst)
         = ([Log LOG_LEVEL_DEBUG (found_instance inst);
             Log LOG_LEVEL_INFO (found_ugen_device vidpid_path inst);
             Log LOG_LEVEL_DEBUG (device_path_is device_path);
             Log LOG_LEVEL_WARNING no_colon_in_device_node_path]
            ++ events (solaris_add_device w discdevs rest))%list).
Proof.
  intros H1 H2 H3 H4 rest.
  pose proof (browse_instance_resolved w vidpid_path discdevs inst
                device_path H1 H2 H3 H4) as E.
  split; [|split; [|split]].
  - apply (strncmp_prefix devices device_path); [reflexivity|exact H4].
  - rewrite E, TraceFacts.resolver_calls_app, resolver_calls_instance_header.
    apply resolver_calls_add_device.
  - intros colon Hc. unfold device_node_path_of. fold rest. rewrite Hc.
    destruct (strrchr_last rest ":" colon Hc) as [Hs Hl].
    split; [reflexivity|]. split; assumption.
  - intros Hc. apply strrchr_none in Hc.
    assert (Ep : device_node_path_of device_path = rest)
      by (unfold device_node_path_of; fold rest; now rewrite Hc).
    split; [exact Ep|].
    rewrite E, Ep. unfold instance_header. fold rest. now rewrite Hc.
Qed.

(** The amended C5 on a path with one colon and on a path with none. *)
Lemma walker_strips_prefix_and_last_colon_witness :
  resolver_calls (events (browse_instance world_one_device "/dev/usb/a12.1"
                            [] "0"))
  = ["/pci@0,0/pci106b,3f@6/device@52"]
  /\ resolver_calls (events (browse_instance world_no_colon "/dev/usb/a12.1"
                               [] "0"))
     = ["/pci@0,0/device@2"].
Proof.
  split.
  - apply (walker_strips_prefix_and_last_colon world_one_device
             "/dev/usb/a12.1" [] "0"
             "/devices/pci@0,0/pci106b,3f@6/device@52:a12.1.devstat");
      reflexivity.
  - apply (walker_strips_prefix_and_last_colon world_no_colon
             "/dev/usb/a12.1" [] "0" "/devices/pci@0,0/device@2");
      reflexivity.
Defined.

(** ** C6: the speed *)

(** C6.  The speed is that of the first of [low-speed], [full-speed],
    [high-speed], [super-speed], in this order, whose lookup returns a code
    that is not negative, and Full when there is none; the properties are
    probed in this order up to that first one.  A node with both
    [low-speed] and [high-speed] is Low, an empty [low-speed] property
    counts as present, a node without a speed property is Full, and the
    speed of a derived identity is the one so classified. *)
Theorem speed_classification (dn : di_node) :
  value (classify_speed dn)
  = match find (fun e => present dn (fst e))
            [("low-speed", LIBUSB_SPEED_LOW); ("full-speed", LIBUSB_SPEED_FULL);
             ("high-speed", LIBUSB_SPEED_HIGH);
             ("super-speed", LIBUSB_SPEED_SUPER)] with
    | Some (_, s) => s
    | None => LIBUSB_SPEED_FULL
    end
  /\ probes (events (classify_speed dn))
     = probed_until (present dn)
         ["low-speed"; "full-speed"; "high-speed"; "super-speed"]
  /\ (0 <= lookup_retval dn "low-speed" ->
      0 <= lookup_retval dn "high-speed" ->
      value (classify_speed dn) = LIBUSB_SPEED_LOW)
  /\ (di_props dn "low-speed" = Some [] ->
      value (classify_speed dn) = LIBUSB_SPEED_LOW)
  /\ ((forall p, In p speed_props -> lookup_retval dn p < 0) ->
      value (classify_speed dn) = LIBUSB_SPEED_FULL)
  /\ forall (path : string) (id : device_identity),
       value (derive_identity dn path) = Some id ->
       speed id = value (classify_speed dn).
Proof.
  rewrite classify_speed_value, classify_speed_events, probes_lookup_events.
  unfold speed_of_presence. cbn [find fst].
  split; [|split; [reflexivity|]].
  { destruct (present dn "low-speed"); [reflexivity|].
    destruct (present dn "full-speed"); [reflexivity|].
    destruct (present dn "high-speed"); [reflexivity|].
    destruct (present dn "super-speed"); reflexivity. }
  split; [|split; [|split]].
  - intros Hl _. unfold present. apply Z.leb_le in Hl. now rewrite Hl.
  - intros Hl. replace (present dn "low-speed") with true; [reflexivity|].
    symmetry. apply present_iff. rewrite Hl. discriminate.
  - intros H. unfold present.
    assert (A : forall p,
               In p speed_props -> (0 <=? lookup_retval dn p) = false).
    { intros p Hp. apply Z.leb_gt. now apply H. }
    rewrite !A; [reflexivity| | | |]; unfold speed_props; simpl; tauto.
  - intros path id E.
    destruct (derive_identity_inv _ _ _ E) as (b & n & k & Hb & Hc & Hat).
    rewrite (derive_identity_ok _ _ _ _ _ Hb Hc Hat) in E.
    injection E as <-. cbn [speed]. apply classify_speed_value.
Qed.

(** C6 on a node with [low-speed] and [high-speed], and on one with no
    speed property. *)
Lemma speed_classification_witness :
  value (classify_speed node_low_and_high) = LIBUSB_SPEED_LOW
  /\ value (classify_speed node_bus_0x12) = LIBUSB_SPEED_FULL.
Proof.
  split.
  - apply (proj1 (proj2 (proj2 (speed_classification node_low_and_high))));
      vm_compute; discriminate.
  - apply (proj1 (proj2 (proj2 (proj2 (proj2
             (speed_classification node_bus_0x12)))))).
    intros p [<-|[<-|[<-|[<-|[]]]]]; reflexivity.
Defined.

(** ** C7: a node without a bus number *)

(** C7.  If the lookup of [assigned-address] on an open node does not return
    exactly one value, no identity is derived; the resolver only traces the
    lookup, releases the node and hands the collection back.  The walk goes
    on as if the instance had not been there: the identities reported for
    the instances of the group are those of the remaining instances, and
    the groups that follow are browsed as usual. *)
Theorem missing_busnum_discards
  (w : world) (discdevs : discovered_devs) (path : string) (dn : di_node) :
  di_init w path = Some dn ->
  (forall v, di_props dn "assigned-address" <> Some [v]) ->
  value (derive_identity dn path) = None
  /\ events (solaris_add_device w discdevs path)
     = [Log LOG_LEVEL_INFO (device_node path);
        Acquire (Node path);
        Log LOG_LEVEL_DEBUG (looking_for_property "assigned-address");
        Log LOG_LEVEL_DEBUG (lookup_report dn "assigned-address");
        Release (Node path)]
  /\ value (solaris_add_device w discdevs path) = discdevs
  /\ (forall (vidpid_path inst : string) (rest : list string),
        resolver_calls (events (browse_instance w vidpid_path discdevs inst))
        = [path] ->
        sessions (events (browse_instances w vidpid_path discdevs
                            (inst :: rest)))
        = sessions (events (browse_instances w vidpid_path discdevs rest))
        /\ resolver_calls (events (browse_instances w vidpid_path discdevs
                                     (inst :: rest)))
           = path :: resolver_calls
                       (events (browse_instances w vidpid_path discdevs rest)))
  /\ (forall (d_name : string) (groups : list string),
        events (browse_dev_usb w discdevs (d_name :: groups))
        = (events (browse_vidpid w discdevs d_name)
           ++ events (browse_dev_usb w discdevs groups))%list).
Proof.
  intros Hn Hb.
  pose proof (lookup_retval_not_found _ _ Hb) as Hr.
  pose proof (derive_identity_no_busnum dn path Hr) as Hd.
  split; [now rewrite Hd|]. split; [|split; [|split]].
  - rewrite (solaris_add_device_events_open _ discdevs _ _ Hn), Hd. reflexivity.
  - apply solaris_add_device_value.
  - intros vp inst rest Hc. apply discarded_candidate_skipped; [assumption|].
    now rewrite sessions_add_device, Hn, Hd.
  - intros d_name groups. apply browse_dev_usb_cons.
Qed.

(** C7 on a group whose first instance lacks [assigned-address]: the
    second instance is still found. *)
Lemma missing_busnum_discards_witness :
  value (derive_identity node_without_busnum "/pci@0,0/device@7") = None
  /\ sessions (events (browse_instances world_without_busnum
                         "/dev/usb/a12.1" [] ["0"; "1"]))
     = sessions (events (browse_instances world_without_busnum
                           "/dev/usb/a12.1" [] ["1"]))
  /\ sessions (events (solaris_get_device_list world_without_busnum []))
     = [(18, 52, 4660)].
Proof.
  destruct (missing_busnum_discards world_without_busnum []
              "/pci@0,0/device@7" node_without_busnum eq_refl)
    as (H1 & _ & _ & H4 & _).
  - intros v; vm_compute; discriminate.
  - split; [exact H1|]. split; [|reflexivity].
    apply (H4 "/dev/usb/a12.1" "0" ["1"]). reflexivity.
Defined.

(** ** C8: the fatal conditions *)

(** C8.  When [regcomp] fails, or when [/dev/usb] cannot be opened,
    discovery returns an error at once: nothing is browsed and the
    collection is untouched.  In every other case all entries of [/dev/usb]
    and all instances of an opened group are gone through, each on its own,
    and the call returns [LIBUSB_ERROR_NO_DEVICE]; so the two conditions are
    the only ones under which the call returns anything else. *)
Theorem fatal_conditions (w : world) (discdevs : discovered_devs) :
  (regcomp_ok w = false ->
   solaris_get_device_list w discdevs
   = ((LIBUSB_ERROR_NO_MEM, discdevs), [Log LOG_LEVEL_ERROR regcomp_failed]))
  /\ (regcomp_ok w = true -> opendir w dev_usb = None ->
      solaris_get_device_list w discdevs
      = ((LIBUSB_ERROR_ACCESS, discdevs),
         [Acquire Compiled_regex;
          Log LOG_LEVEL_ERROR (opendir_failed dev_usb);
          Release Compiled_regex]))
  /\ (forall entries : list string,
        regcomp_ok w = true -> opendir w dev_usb = Some entries ->
        value (solaris_get_device_list w discdevs)
        = (LIBUSB_ERROR_NO_DEVICE, discdevs)
        /\ events (solaris_get_device_list w discdevs)
           = ([Acquire Compiled_regex; Acquire (Directory dev_usb);
               Log LOG_LEVEL_DEBUG (start_browsing dev_usb)]
              ++ flat_map
                   (fun d_name => events (browse_vidpid w discdevs d_name))
                   entries
              ++ [Log LOG_LEVEL_DEBUG (stop_browsing dev_usb);
                  Release (Directory dev_usb)])%list)
  /\ (forall (d_name : string) (insts : list string),
        regexec vidpid_regex d_name = true ->
        strlen (dev_usb ++ "/" ++ d_name) < sizeof_vidpid_path ->
        opendir w (dev_usb ++ "/" ++ d_name) = Some insts ->
        events (browse_vidpid w discdevs d_name)
        = ([Log LOG_LEVEL_DEBUG (found d_name);
            Acquire (Directory (dev_usb ++ "/" ++ d_name));
            Log LOG_LEVEL_DEBUG (start_browsing (dev_usb ++ "/" ++ d_name))]
           ++ flat_map
                (fun inst =>
                   events (browse_instance w (dev_usb ++ "/" ++ d_name)
                             discdevs inst))
                insts
           ++ [Log LOG_LEVEL_DEBUG
                 (stop_browsing (dev_usb ++ "/" ++ d_name))])%list)
  /\ (fst (value (solaris_get_device_list w discdevs))
      <> LIBUSB_ERROR_NO_DEVICE
      <-> regcomp_ok w = false \/ opendir w dev_usb = None).
Proof.
  split; [apply get_device_list_regcomp_failed|].
  split; [apply get_device_list_opendir_failed|].
  split; [intros entries; apply get_device_list_browsed|].
  split; [intros d_name insts; apply browse_vidpid_browsed|].
  destruct (regcomp_ok w) eqn:H1.
  - destruct (opendir w dev_usb) as [entries|] eqn:H2.
    + destruct (get_device_list_browsed w discdevs entries H1 H2) as [-> _].
      cbn [fst]. split; [intros H; now contradiction H|].
      intros [H|H]; discriminate.
    + rewrite get_device_list_opendir_failed by assumption.
      cbn [value fst]. split; [now right | discriminate].
  - rewrite get_device_list_regcomp_failed by assumption.
    cbn [value fst]. split; [now left | discriminate].
Qed.

(** C8 on a world where [regcomp] fails, on one without [/dev/usb], and on
    one where a candidate is discarded. *)
Lemma fatal_conditions_witness :
  solaris_get_device_list world_no_regex []
  = ((LIBUSB_ERROR_NO_MEM, []), [Log LOG_LEVEL_ERROR regcomp_failed])
  /\ solaris_get_device_list world_no_dev_usb []
     = ((LIBUSB_ERROR_ACCESS, []),
        [Acquire Compiled_regex;
         Log LOG_LEVEL_ERROR (opendir_failed dev_usb);
         Release Compiled_regex])
  /\ value (solaris_get_device_list world_without_busnum [])
     = (LIBUSB_ERROR_NO_DEVICE, []).
Proof.
  split; [|split].
  - apply (proj1 (fatal_conditions world_no_regex [])). reflexivity.
  - apply (proj1 (proj2 (fatal_conditions world_no_dev_usb [])));
      reflexivity.
  - apply (proj1 (proj2 (proj2 (fatal_conditions world_without_busnum [])))
             ["a12.1"]); reflexivity.
Defined.

(** ** C9: the device address *)

(** C9, as stated, fails.  The path [/pci/device] has no [@]; its node lacks
    [assigned-address], so that the candidate is discarded by that check,
    with trace lines only: no error diagnostic is issued. *)
Lemma missing_at_discarded_silently :
  strrchr "/pci/device" "@" = None
  /\ events (solaris_add_device world_without_at [] "/pci/device")
     = [Log LOG_LEVEL_INFO (device_node "/pci/device");
        Acquire (Node "/pci/device");
        Log LOG_LEVEL_DEBUG (looking_for_property "assigned-address");
        Log LOG_LEVEL_DEBUG (failed_to_get_property "assigned-address");
        Release (Node "/pci/device")]
  /\ existsb is_error
       (events (solaris_add_device world_without_at [] "/pci/device"))
     = false.
Proof. repeat split; vm_compute; reflexivity. Qed.

(** C9, amended.  For a path without [@] no identity is derived or
    reported, the node handle, when there is one, is released last, and the
    walk goes on without a fatal error; the error diagnostic of the missing
    [@] is issued, right before the release, when the node opens and both
    required properties are found.  For a path with an [@] the address of a
    derived identity is [atoi] of what follows the last [@]: the value of
    the leading decimal digits, whatever comes after them, and 0 for text
    that does not start a number. *)
Theorem address_extraction
  (w : world) (discdevs : discovered_devs) (path : string) :
  (strrchr path "@" = None ->
   sessions (events (solaris_add_device w discdevs path)) = []
   /\ value (solaris_add_device w discdevs path) = discdevs
   /\ (forall dn : di_node,
         di_init w path = Some dn ->
         value (derive_identity dn path) = None
         /\ last (events (solaris_add_device w discdevs path))
              (Acquire (Node path)) = Release (Node path)
         /\ (forall b n : Z,
               di_props dn "assigned-address" = Some [b] ->
               di_props dn "usb-num-configs" = Some [n] ->
               events (solaris_add_device w discdevs path)
               = ([Log LOG_LEVEL_INFO (device_node path);
                   Acquire (Node path)]
                  ++ lookup_events dn "assigned-address"
                  ++ lookup_events dn "usb-num-configs"
                  ++ events (classify_speed dn)
                  ++ [Log LOG_LEVEL_ERROR failed_to_parse_device_node;
                      Release (Node path)])%list))
   /\ (forall (vidpid_path inst : string) (rest : list string),
         resolver_calls (events (browse_instance w vidpid_path discdevs inst))
         = [path] ->
         sessions (events (browse_instances w vidpid_path discdevs
                             (inst :: rest)))
         = sessions (events (browse_instances w vidpid_path discdevs rest))
         /\ resolver_calls (events (browse_instances w vidpid_path discdevs
                                      (inst :: rest)))
            = path :: resolver_calls
                        (events (browse_instances w vidpid_path discdevs
                                   rest)))
   /\ (forall entries : list string,
         regcomp_ok w = true -> opendir w dev_usb = Some entries ->
         fst (value (solaris_get_device_list w discdevs))
         = LIBUSB_ERROR_NO_DEVICE))
  /\ (forall (dn : di_node) (k : nat) (id : device_identity),
        strrchr path "@" = Some k ->
        value (derive_identity dn path) = Some id ->
        devaddr id = atoi (advance (S k) path)
        /\ path = truncate_at k path ++ String "@" (advance (S k) path)
        /\ strchr (advance (S k) path) "@" = None)
  /\ (forall ds rest : string,
        ds <> "" -> all_digits ds = true ->
        isdigit (first_char rest) = false ->
        atoi (ds ++ rest) = wrap_int (digits_value 0 ds))
  /\ (forall s : string,
        isspace (first_char s) = false ->
        isdigit (first_char s) = false ->
        first_char s <> "-"%char -> first_char s <> "+"%char ->
        atoi s = 0).
Proof.
  split; [|split; [|split]].
  - intros Hat.
    assert (Hnone : forall dn, value (derive_identity dn path) = None).
    { intros dn.
      destruct (value (derive_identity dn path)) as [id|] eqn:E; [|reflexivity].
      destruct (derive_identity_inv _ _ _ E) as (b & n & k & _ & _ & Hat').
      rewrite Hat in Hat'. discriminate. }
    assert (Hs : sessions (events (solaris_add_device w discdevs path)) = []).
    { rewrite sessions_add_device.
      destruct (di_init w path) as [dn|]; [now rewrite Hnone|reflexivity]. }
    split; [exact Hs|].
    split; [apply solaris_add_device_value|].
    split; [|split].
    + intros dn Hn. split; [apply Hnone|].
      split; [now apply last_event_add_device with (dn := dn)|].
      intros b n Hb Hc.
      rewrite (solaris_add_device_events_open _ discdevs _ _ Hn).
      rewrite derive_identity_no_at;
        try assumption; try (eapply lookup_retval_found; eassumption).
      cbn [events snd app]. now rewrite <- !app_assoc.
    + intros vp inst rest Hc. now apply discarded_candidate_skipped.
    + intros entries H1 H2.
      now destruct (get_device_list_browsed w discdevs entries H1 H2) as [-> _].
  - intros dn k id Hat E.
    destruct (derive_identity_inv _ _ _ E) as (b & n & k' & Hb & Hc & _).
    rewrite (derive_identity_ok _ _ _ _ _ Hb Hc Hat) in E.
    injection E as <-. cbn [devaddr]. split; [reflexivity|].
    apply strrchr_last; assumption.
  - apply atoi_numeric_prefix.
  - apply atoi_not_numeric.
Qed.

(** The amended C9 on a path without [@] whose node has both required
    properties, and on two strings. *)
Lemma address_extraction_witness :
  events (solaris_add_device world_without_at [] "/pci/hub")
  = [Log LOG_LEVEL_INFO (device_node "/pci/hub");
     Acquire (Node "/pci/hub");
     Log LOG_LEVEL_DEBUG (looking_for_property "assigned-address");
     Log LOG_LEVEL_DEBUG (found_property "assigned-address" 18);
     Log LOG_LEVEL_DEBUG (looking_for_property "usb-num-configs");
     Log LOG_LEVEL_DEBUG (found_property "usb-num-configs" 1);
     Log LOG_LEVEL_DEBUG (looking_for_property "low-speed");
     Log LOG_LEVEL_DEBUG (failed_to_get_property "low-speed");
     Log LOG_LEVEL_DEBUG (looking_for_property "full-speed");
     Log LOG_LEVEL_DEBUG (failed_to_get_property "full-speed");
     Log LOG_LEVEL_DEBUG (looking_for_property "high-speed");
     Log LOG_LEVEL_DEBUG (failed_to_get_property "high-speed");
     Log LOG_LEVEL_DEBUG (looking_for_property "super-speed");
     Log LOG_LEVEL_DEBUG (failed_to_get_property "super-speed");
     Log LOG_LEVEL_ERROR failed_to_parse_device_node;
     Release (Node "/pci/hub")]
  /\ atoi ("7" ++ "abc") = 7
  /\ atoi "abc" = 0.
Proof.
  pose proof (address_extraction world_without_at [] "/pci/hub")
    as (H1 & _ & H3 & H4).
  split; [|split].
  - destruct (H1 eq_refl) as (_ & _ & H & _).
    destruct (H node_bus_0x12 eq_refl) as (_ & _ & H').
    exact (H' 18 1 eq_refl eq_refl).
  - apply (H3 "7" "abc"); [discriminate|reflexivity|reflexivity].
  - apply (H4 "abc"); try reflexivity; discriminate.
Defined.

(** ** C10: the other entry points *)

(** C10, as stated, fails.  [solaris_cancel_transfer] returns
    [LIBUSB_ERROR_NOT_SUPPORTED], and [solaris_clock_gettime] calls the
    system clock for the real-time clock and returns
    [LIBUSB_ERROR_INVALID_PARAM] for an unknown one. *)
Lemma cancel_and_clock_are_not_absent_stubs :
  solaris_cancel_transfer 0
  = (Libusb LIBUSB_ERROR_NOT_SUPPORTED, [Log LOG_LEVEL_DEBUG empty_message])
  /\ Libusb LIBUSB_ERROR_NOT_SUPPORTED <> Libusb LIBUSB_ERROR_NO_DEVICE
  /\ solaris_clock_gettime 0 1 world_one_device 1 0
     = (System 0,
        [Log LOG_LEVEL_DEBUG (clock 1); Clock_gettime CLOCK_REALTIME])
  /\ solaris_clock_gettime 0 1 world_one_device 2 0
     = (Libusb LIBUSB_ERROR_INVALID_PARAM, [Log LOG_LEVEL_DEBUG (clock 2)]).
Proof.
  split; [reflexivity|]. split; [discriminate|]. split; reflexivity.
Qed.

(** C10, amended.  Every other entry point of the backend but two does
    nothing, or returns [LIBUSB_ERROR_NO_DEVICE] without any effect.  The two
    are [solaris_cancel_transfer], which traces and returns
    [LIBUSB_ERROR_NOT_SUPPORTED], and [solaris_clock_gettime], which hands
    the two known clocks over to the system and returns
    [LIBUSB_ERROR_INVALID_PARAM] for any other. *)
Theorem stub_entry_points
  (w : world) (USBI_CLOCK_MONOTONIC USBI_CLOCK_REALTIME : Z)
  (handle dev buf host_endian config itransfer ctx fds tp : pointer)
  (len idx config_value iface altsetting endpoint nfds num_ready clkid : Z) :
  solaris_open handle = ret (Libusb LIBUSB_ERROR_NO_DEVICE)
  /\ solaris_close handle = ret tt
  /\ solaris_get_device_descriptor dev buf host_endian
     = ret (Libusb LIBUSB_ERROR_NO_DEVICE)
  /\ solaris_get_active_config_descriptor dev buf len host_endian
     = ret (Libusb LIBUSB_ERROR_NO_DEVICE)
  /\ solaris_get_config_descriptor dev idx buf len host_endian
     = ret (Libusb LIBUSB_ERROR_NO_DEVICE)
  /\ solaris_get_configuration handle config
     = ret (Libusb LIBUSB_ERROR_NO_DEVICE)
  /\ solaris_set_configuration handle config_value
     = ret (Libusb LIBUSB_ERROR_NO_DEVICE)
  /\ solaris_claim_interface handle iface
     = ret (Libusb LIBUSB_ERROR_NO_DEVICE)
  /\ solaris_release_interface handle iface
     = ret (Libusb LIBUSB_ERROR_NO_DEVICE)
  /\ solaris_set_interface_altsetting handle iface altsetting
     = ret (Libusb LIBUSB_ERROR_NO_DEVICE)
  /\ solaris_clear_halt handle endpoint = ret (Libusb LIBUSB_ERROR_NO_DEVICE)
  /\ solaris_reset_device handle = ret (Libusb LIBUSB_ERROR_NO_DEVICE)
  /\ solaris_destroy_device dev = ret tt
  /\ solaris_submit_transfer itransfer = ret (Libusb LIBUSB_ERROR_NO_DEVICE)
  /\ solaris_clear_transfer_priv itransfer = ret tt
  /\ solaris_handle_events ctx fds nfds num_ready
     = ret (Libusb LIBUSB_ERROR_NO_DEVICE)
  /\ solaris_cancel_transfer itransfer
     = (Libusb LIBUSB_ERROR_NOT_SUPPORTED, [Log LOG_LEVEL_DEBUG empty_message])
  /\ solaris_clock_gettime USBI_CLOCK_MONOTONIC USBI_CLOCK_REALTIME w clkid tp
     = if clkid =? USBI_CLOCK_REALTIME then
         (System (clock_gettime w CLOCK_REALTIME),
          [Log LOG_LEVEL_DEBUG (clock clkid); Clock_gettime CLOCK_REALTIME])
       else if clkid =? USBI_CLOCK_MONOTONIC then
         (System (clock_gettime w CLOCK_MONOTONIC),
          [Log LOG_LEVEL_DEBUG (clock clkid); Clock_gettime CLOCK_MONOTONIC])
       else
         (Libusb LIBUSB_ERROR_INVALID_PARAM,
          [Log LOG_LEVEL_DEBUG (clock clkid)]).
Proof.
  repeat (split; [reflexivity|]).
  unfold solaris_clock_gettime.
  destruct (clkid =? USBI_CLOCK_REALTIME); [reflexivity|].
  destruct (clkid =? USBI_CLOCK_MONOTONIC); reflexivity.
Qed.

(** * Further properties of the backend *)

Module CoverageFacts.

Import CInt CStr Regex Trace Env Solaris Summary Scenarios Coverage.
Import CIntFacts StringFacts RegexFacts LookupFacts ResolverFacts WalkerFacts.
Local Open Scope trace_scope.

Lemma replay_nodes_app (h : option string) (t1 t2 : trace) :
  replay_nodes h (t1 ++ t2)%list
  = match replay_nodes h t1 with
    | Some h' => replay_nodes h' t2
    | None => None
    end.
Proof.
  revert h; induction t1 as [|e t1 IH]; intros h; [reflexivity|].
  destruct e as [lvl msg|[| |p]|[| |p]|clk]; cbn [app replay_nodes];
    try apply IH.
  - destruct h; [reflexivity|apply IH].
  - destruct h as [q|]; [|reflexivity].
    destruct (String.eqb p q); [apply IH|reflexivity].
Qed.

Lemma replay_nodes_free (h : option string) (t : trace) :
  existsb is_node_event t = false -> replay_nodes h t = Some h.
Proof.
  induction t as [|e t IH]; [reflexivity|].
  cbn [existsb]. intros H. apply orb_false_iff in H as [He Ht].
  destruct e as [lvl msg|[| |p]|[| |p]|clk]; cbn [replay_nodes];
    try discriminate; now apply IH.
Qed.

Lemma node_free_lookup_events (dn : di_node) (names : list string) :
  existsb is_node_event (flat_map (lookup_events dn) names) = false.
Proof.
  induction names as [|p names IH]; simpl; [reflexivity|exact IH].
Qed.

Lemma node_free_derive_identity (dn : di_node) (path : string) :
  existsb is_node_event (events (derive_identity dn path)) = false.
Proof.
  destruct (derive_identity_shape dn path) as (names & tail & -> & H).
  rewrite existsb_app, node_free_lookup_events.
  destruct H as [->|[->|(id & _ & ->)]]; reflexivity.
Qed.

Lemma replay_nodes_add_device (w : world) (dd : discovered_devs)
  (path : string) :
  replay_nodes None (events (solaris_add_device w dd path)) = Some None.
Proof.
  destruct (di_init w path) as [dn|] eqn:E.
  - rewrite (solaris_add_device_events_open _ dd _ _ E).
    cbn [replay_nodes]. rewrite replay_nodes_app.
    rewrite (replay_nodes_free _ _ (node_free_derive_identity dn path)).
    cbn [replay_nodes]. now rewrite String.eqb_refl.
  - now rewrite (solaris_add_device_events_closed _ dd _ E).
Qed.

Lemma replay_nodes_flat_map (A : Type) (f : A -> trace) (l : list A) :
  (forall a, replay_nodes None (f a) = Some None) ->
  replay_nodes None (flat_map f l) = Some None.
Proof.
  intros H. induction l as [|a l IH]; [reflexivity|].
  cbn [flat_map]. now rewrite replay_nodes_app, H.
Qed.

Lemma replay_nodes_browse_instance (w : world) (vp : string)
  (dd : discovered_devs) (inst : string) :
  replay_nodes None (events (browse_instance w vp dd inst)) = Some None.
Proof.
  unfold browse_instance.
  destruct (Ascii.eqb "." (first_char inst)); [reflexivity|].
  autorewrite with trace.
  destruct (sizeof_devstat_path <=? _); [reflexivity|].
  destruct (realpath w _); [|reflexivity].
  autorewrite with trace.
  destruct (negb _); [reflexivity|].
  destruct (strrchr _ _); autorewrite with trace;
    cbn [app replay_nodes usbi_dbg usbi_info usbi_warn emit events snd];
    apply replay_nodes_add_device.
Qed.

Lemma replay_nodes_browse_vidpid (w : world) (dd : discovered_devs)
  (d_name : string) :
  replay_nodes None (events (browse_vidpid w dd d_name)) = Some None.
Proof.
  unfold browse_vidpid.
  destruct (negb (regexec _ _)).
  { destruct (negb (Ascii.eqb "." (first_char d_name))); reflexivity. }
  autorewrite with trace.
  destruct (sizeof_vidpid_path <=? _); [reflexivity|].
  destruct (opendir w _); [|reflexivity].
  autorewrite with trace. rewrite browse_instances_events.
  cbn [app replay_nodes usbi_dbg emit events snd].
  rewrite replay_nodes_app, replay_nodes_flat_map; [reflexivity|].
  intros inst. apply replay_nodes_browse_instance.
Qed.

Lemma acquired_app (t1 t2 : trace) :
  acquired (t1 ++ t2)%list = (acquired t1 ++ acquired t2)%list.
Proof.
  induction t1 as [|e t1 IH]; [reflexivity|].
  destruct e; cbn [app acquired]; now rewrite IH.
Qed.

Lemma released_app (t1 t2 : trace) :
  released (t1 ++ t2)%list = (released t1 ++ released t2)%list.
Proof.
  induction t1 as [|e t1 IH]; [reflexivity|].
  destruct e; cbn [app released]; now rewrite IH.
Qed.

Lemma no_resource_lookup_events (dn : di_node) (names : list string) :
  acquired (flat_map (lookup_events dn) names) = []
  /\ released (flat_map (lookup_events dn) names) = [].
Proof.
  induction names as [|p names IH]; simpl; [now split|exact IH].
Qed.

Lemma no_resource_derive_identity (dn : di_node) (path : string) :
  acquired (events (derive_identity dn path)) = []
  /\ released (events (derive_identity dn path)) = [].
Proof.
  destruct (derive_identity_shape dn path) as (names & tail & -> & H).
  rewrite acquired_app, released_app.
  destruct (no_resource_lookup_events dn names) as [-> ->].
  destruct H as [->|[->|(id & _ & ->)]]; now split.
Qed.

Lemma resources_add_device (w : world) (dd : discovered_devs)
  (path : string) :
  acquired (events (solaris_add_device w dd path))
  = match di_init w path with
    | Some _ => [Node path]
    | None => []
    end
  /\ released (events (solaris_add_device w dd path))
     = acquired (events (solaris_add_device w dd path)).
Proof.
  destruct (di_init w path) as [dn|] eqn:E.
  - rewrite (solaris_add_device_events_open _ dd _ _ E).
    cbn [acquired released]. rewrite acquired_app, released_app.
    destruct (no_resource_derive_identity dn path) as [-> ->]. now split.
  - rewrite (solaris_add_device_events_closed _ dd _ E). now split.
Qed.

Lemma files_app (l1 l2 : list resource) :
  files (l1 ++ l2)%list = (files l1 ++ files l2)%list.
Proof. apply filter_app. Qed.

Lemma files_cons (r : resource) (l : list resource) :
  files (r :: l) = if is_node r then files l else r :: files l.
Proof. unfold files. cbn [filter]. now destruct (is_node r). Qed.

Lemma files_add_device (w : world) (dd : discovered_devs) (path : string) :
  files (acquired (events (solaris_add_device w dd path))) = []
  /\ files (released (events (solaris_add_device w dd path))) = [].
Proof.
  destruct (resources_add_device w dd path) as [Ha Hr]. rewrite Hr, Ha.
  destruct (di_init w path); now split.
Qed.

Lemma files_browse_instance (w : world) (vp : string)
  (dd : discovered_devs) (inst : string) :
  files (acquired (events (browse_instance w vp dd inst))) = []
  /\ files (released (events (browse_instance w vp dd inst))) = [].
Proof.
  unfold browse_instance.
  destruct (Ascii.eqb "." (first_char inst)); [now split|].
  autorewrite with trace.
  destruct (sizeof_devstat_path <=? _); [now split|].
  destruct (realpath w _); [|now split].
  autorewrite with trace.
  destruct (negb _); [now split|].
  destruct (strrchr _ _); autorewrite with trace;
    cbn [app acquired released usbi_dbg usbi_info usbi_warn emit events snd];
    apply files_add_device.
Qed.

Lemma files_flat_map (A : Type) (obs : trace -> list resource)
  (f : A -> trace) (l : list A) :
  (forall t1 t2, obs (t1 ++ t2)%list = (obs t1 ++ obs t2)%list) ->
  obs [] = [] ->
  files (obs (flat_map f l)) = flat_map (fun a => files (obs (f a))) l.
Proof.
  intros Happ Hnil. induction l as [|a l IH]; cbn [flat_map].
  - now rewrite Hnil.
  - now rewrite Happ, files_app, IH.
Qed.

Lemma flat_map_nil (A B : Type) (f : A -> list B) (l : list A) :
  (forall a, f a = []) -> flat_map f l = [].
Proof.
  intros H. induction l as [|a l IH]; cbn [flat_map]; [reflexivity|].
  now rewrite H, IH.
Qed.

Lemma files_browse_vidpid (w : world) (dd : discovered_devs)
  (d_name : string) :
  files (acquired (events (browse_vidpid w dd d_name)))
  = (if group_opens w d_name then [Directory (vidpid_path_of d_name)] else [])
  /\ files (released (events (browse_vidpid w dd d_name))) = [].
Proof.
  unfold browse_vidpid, group_opens, vidpid_path_of.
  destruct (regexec vidpid_regex d_name); cbn [negb andb].
  2:{ destruct (negb (Ascii.eqb "." (first_char d_name))); now split. }
  autorewrite with trace. rewrite Z.ltb_antisym.
  destruct (sizeof_vidpid_path <=? _); cbn [negb andb]; [now split|].
  destruct (opendir w _); [|now split].
  autorewrite with trace. rewrite browse_instances_events.
  cbn [app acquired released usbi_dbg emit events snd].
  rewrite acquired_app, released_app.
  rewrite files_cons. cbn [is_node]. rewrite !files_app.
  rewrite (files_flat_map _ acquired _ _ acquired_app eq_refl).
  rewrite (files_flat_map _ released _ _ released_app eq_refl).
  rewrite !flat_map_nil; [now split| |];
    intros inst; apply files_browse_instance.
Qed.

Lemma files_browse_dev_usb (w : world) (dd : discovered_devs)
  (entries : list string) :
  flat_map (fun d => files (acquired (events (browse_vidpid w dd d)))) entries
  = map (fun d => Directory (vidpid_path_of d))
      (filter (group_opens w) entries).
Proof.
  induction entries as [|d entries IH]; [reflexivity|].
  cbn [flat_map filter]. destruct (files_browse_vidpid w dd d) as [-> _].
  destruct (group_opens w d); cbn [map app]; now rewrite IH.
Qed.

Lemma length_append (s1 s2 : string) :
  String.length (s1 ++ s2) = (String.length s1 + String.length s2)%nat.
Proof. induction s1 as [|c s1 IH]; simpl; [reflexivity|now rewrite IH]. Qed.

Lemma vidpid_path_fits (d_name : string) :
  strlen (vidpid_path_of d_name) < sizeof_vidpid_path
  <-> (String.length d_name <= 9)%nat.
Proof.
  unfold vidpid_path_of, sizeof_vidpid_path, strlen, dev_usb.
  rewrite !length_append. cbn [String.length]. lia.
Qed.

Lemma devstat_path_fits (d_name inst : string) :
  strlen (devstat_path_of (vidpid_path_of d_name) inst) < sizeof_devstat_path
  <-> (String.length d_name + String.length inst <= 13)%nat.
Proof.
  unfold devstat_path_of, vidpid_path_of, sizeof_devstat_path, strlen, dev_usb.
  rewrite !length_append. cbn [String.length]. lia.
Qed.

Lemma resolver_calls_browse_instance (w : world) (vp : string)
  (dd : discovered_devs) (inst : string) :
  resolver_calls (events (browse_instance w vp dd inst))
  = if Ascii.eqb "." (first_char inst) then []
    else if sizeof_devstat_path <=? strlen (devstat_path_of vp inst) then []
    else match realpath w (devstat_path_of vp inst) with
         | None => []
         | Some dp =>
             if strncmp dp devices devices_len =? 0
             then [device_node_path_of dp]
             else []
         end.
Proof.
  destruct (Ascii.eqb "." (first_char inst)) eqn:H1.
  { unfold browse_instance. now rewrite H1. }
  destruct (sizeof_devstat_path <=? strlen (devstat_path_of vp inst)) eqn:H2.
  { unfold browse_instance. rewrite H1. unfold devstat_path_of in H2.
    autorewrite with trace. now rewrite H2. }
  destruct (realpath w (devstat_path_of vp inst)) as [dp|] eqn:H3.
  2:{ unfold browse_instance. rewrite H1. unfold devstat_path_of in H2, H3.
      autorewrite with trace. now rewrite H2, H3. }
  destruct (strncmp dp devices devices_len =? 0) eqn:H4.
  2:{ unfold browse_instance. rewrite H1. unfold devstat_path_of in H2, H3.
      autorewrite with trace. rewrite H2, H3.
      autorewrite with trace. now rewrite H4. }
  apply Z.leb_gt in H2. apply Z.eqb_eq in H4.
  rewrite (browse_instance_resolved w vp dd inst dp H1 H2 H3 H4).
  rewrite TraceFacts.resolver_calls_app, resolver_calls_instance_header.
  apply resolver_calls_add_device.
Qed.

Lemma resolver_calls_browse_vidpid (w : world) (dd : discovered_devs)
  (d_name : string) :
  resolver_calls (events (browse_vidpid w dd d_name))
  = if group_opens w d_name then
      match opendir w (vidpid_path_of d_name) with
      | Some insts =>
          flat_map
            (fun inst =>
               resolver_calls
                 (events (browse_instance w (vidpid_path_of d_name) dd inst)))
            insts
      | None => []
      end
    else [].
Proof.
  unfold group_opens.
  destruct (regexec vidpid_regex d_name) eqn:H1; cbn [andb].
  2:{ now destruct (resolver_calls_skipped w dd d_name H1). }
  destruct (strlen (vidpid_path_of d_name) <? sizeof_vidpid_path) eqn:H2;
    cbn [andb].
  2:{ unfold browse_vidpid. rewrite H1. cbn [negb].
      rewrite Z.ltb_antisym in H2. apply negb_false_iff in H2.
      unfold vidpid_path_of in H2. autorewrite with trace. now rewrite H2. }
  destruct (opendir w (vidpid_path_of d_name)) as [insts|] eqn:H3.
  2:{ unfold browse_vidpid. rewrite H1. cbn [negb].
      rewrite Z.ltb_antisym in H2. apply negb_true_iff in H2.
      unfold vidpid_path_of in H2, H3. autorewrite with trace.
      now rewrite H2, H3. }
  apply Z.ltb_lt in H2.
  rewrite (browse_vidpid_browsed w dd d_name insts H1 H2 H3).
  rewrite !TraceFacts.resolver_calls_app, TraceFacts.resolver_calls_flat_map.
  cbn [resolver_calls app]. apply app_nil_r.
Qed.

Lemma sessions_flat_map (A : Type) (f : A -> trace) (l : list A) :
  sessions (flat_map f l) = flat_map (fun a => sessions (f a)) l.
Proof.
  induction l as [|a l IH]; simpl; [reflexivity|].
  now rewrite TraceFacts.sessions_app, IH.
Qed.

Section Composition.

Variables (w : world) (dd : discovered_devs).

Lemma composed_app (t1 t2 : trace) :
  composed w dd t1 -> composed w dd t2 -> composed w dd (t1 ++ t2)%list.
Proof.
  unfold composed. intros H1 H2.
  now rewrite TraceFacts.sessions_app, TraceFacts.resolver_calls_app,
    flat_map_app, H1, H2.
Qed.

Lemma composed_flat_map (A : Type) (f : A -> trace) (l : list A) :
  (forall a, composed w dd (f a)) -> composed w dd (flat_map f l).
Proof.
  intros H. induction l as [|a l IH]; [reflexivity|].
  cbn [flat_map]. now apply composed_app.
Qed.

Lemma composed_browse_instance (vp inst : string) :
  composed w dd (events (browse_instance w vp dd inst)).
Proof.
  destruct (browse_instance_shape w vp dd inst)
    as [[Q1 Q2]|(pre & dp & [Q1 Q2] & _ & ->)].
  - unfold composed. now rewrite Q1, Q2.
  - apply composed_app.
    + unfold composed. now rewrite Q1, Q2.
    + unfold composed, resolved. rewrite resolver_calls_add_device.
      cbn [flat_map]. now rewrite app_nil_r.
Qed.

Lemma composed_browse_vidpid (d_name : string) :
  composed w dd (events (browse_vidpid w dd d_name)).
Proof.
  unfold browse_vidpid.
  destruct (negb (regexec _ _)).
  { destruct (negb (Ascii.eqb "." (first_char d_name))); reflexivity. }
  autorewrite with trace.
  destruct (sizeof_vidpid_path <=? _); [reflexivity|].
  destruct (opendir w _); [|reflexivity].
  autorewrite with trace. rewrite browse_instances_events.
  apply (composed_app [_]); [reflexivity|].
  apply (composed_app [_]); [reflexivity|].
  apply (composed_app [_]); [reflexivity|].
  apply composed_app; [|reflexivity].
  apply composed_flat_map. intros inst. apply composed_browse_instance.
Qed.

Lemma composed_get_device_list :
  composed w dd (events (solaris_get_device_list w dd)).
Proof.
  unfold solaris_get_device_list.
  destruct (negb (regcomp_ok w)); [reflexivity|].
  autorewrite with trace.
  destruct (opendir w dev_usb); [|reflexivity].
  autorewrite with trace. rewrite browse_dev_usb_events.
  apply (composed_app [_]); [reflexivity|].
  apply (composed_app [_]); [reflexivity|].
  apply (composed_app [_]); [reflexivity|].
  apply composed_app; [|reflexivity].
  apply composed_flat_map. intros d. apply composed_browse_vidpid.
Qed.

End Composition.

Lemma lor_shiftl_low (b d : Z) :
  0 <= b -> 0 <= d < 256 -> Z.lor (Z.shiftl b 8) d = b * 256 + d.
Proof.
  intros Hb Hd.
  assert (Hland : Z.land (Z.shiftl b 8) d = 0).
  { apply Z.bits_inj'. intros n Hn. rewrite Z.land_spec, Z.bits_0.
    destruct (Z.lt_ge_cases n 8) as [Hlt|Hge].
    - rewrite Z.shiftl_spec_low by assumption. reflexivity.
    - replace (Z.testbit d n) with false; [apply andb_false_r|].
      symmetry. destruct (Z.eq_dec d 0) as [->|Hnz]; [apply Z.bits_0|].
      apply Z.bits_above_log2; [lia|].
      assert (Z.log2 d < 8)
        by (apply Z.log2_lt_pow2; [lia|change (2 ^ 8) with 256; lia]).
      lia. }
  rewrite <- (Z.lxor_lor _ _ Hland), <- (Z.add_nocarry_lxor _ _ Hland).
  rewrite Z.shiftl_mul_pow2 by lia. reflexivity.
Qed.

Lemma errors_lookup (dn : di_node) (p : string) :
  existsb is_error (lookup_events dn p) = false.
Proof. reflexivity. Qed.

Lemma errors_classify_speed (dn : di_node) :
  existsb is_error (events (classify_speed dn)) = false.
Proof. rewrite classify_speed_events. apply errors_lookup_events. Qed.

Lemma string_snoc (s : string) :
  s <> "" -> exists s' c, s = s' ++ String c "".
Proof.
  induction s as [|a s IH]; [contradiction|]. intros _.
  destruct s as [|a' s].
  - now exists "", a.
  - destruct IH as (s' & c & E); [discriminate|].
    exists (String a s'), c. cbn [append]. now rewrite E.
Qed.

Lemma probes_lookup (dn : di_node) (p : string) :
  probes (lookup_events dn p) = [p].
Proof.
  pose proof (probes_lookup_events dn [p]) as H.
  cbn [flat_map] in H. now rewrite app_nil_r in H.
Qed.

Lemma probed_until_prefix (f : string -> bool) (names : list string) :
  names <> [] ->
  exists m : nat,
    (1 <= m <= List.length names)%nat
    /\ probed_until f names = firstn m names.
Proof.
  induction names as [|p names IH]; [contradiction|]. intros _.
  cbn [probed_until]. destruct (f p).
  - exists 1%nat. cbn [List.length firstn]. split; [lia|reflexivity].
  - destruct names as [|q names].
    + exists 1%nat. cbn [List.length firstn probed_until].
      split; [lia|reflexivity].
    + destruct IH as (m & Hm & E); [discriminate|].
      exists (S m). cbn [List.length firstn] in *. split; [lia|].
      now rewrite E.
Qed.

Lemma length_flat_map_le (A B : Type) (f : A -> list B) (l : list A) :
  (forall a, (List.length (f a) <= 1)%nat) ->
  (List.length (flat_map f l) <= List.length l)%nat.
Proof.
  intros H. induction l as [|a l IH]; [simpl; lia|].
  cbn [flat_map List.length]. rewrite length_app. specialize (H a). lia.
Qed.





End CoverageFacts.

Import Coverage CoverageFacts.

(** X1.  During a whole discovery pass at most one device-tree node is open at
    a time, a node is released only while it is the one open, and none is
    left open at the end.  One call of [solaris_add_device] opens the node of
    its path at most once and releases exactly what it opened. *)
Theorem node_handles_are_balanced (w : world) (discdevs : discovered_devs) :
  replay_nodes None (events (solaris_get_device_list w discdevs)) = Some None
  /\ forall path : string,
       replay_nodes None (events (solaris_add_device w discdevs path))
       = Some None
       /\ released (events (solaris_add_device w discdevs path))
          = acquired (events (solaris_add_device w discdevs path))
       /\ acquired (events (solaris_add_device w discdevs path))
          = match di_init w path with
            | Some _ => [Node path]
            | None => []
            end.
Proof.
  split.
  - unfold solaris_get_device_list.
    destruct (negb (regcomp_ok w)); [reflexivity|].
    autorewrite with trace.
    destruct (opendir w dev_usb); [|reflexivity].
    autorewrite with trace. rewrite browse_dev_usb_events.
    cbn [app replay_nodes usbi_dbg emit events snd].
    rewrite replay_nodes_app, replay_nodes_flat_map; [reflexivity|].
    intros d_name. apply replay_nodes_browse_vidpid.
  - intros path. split; [apply replay_nodes_add_device|].
    destruct (resources_add_device w discdevs path) as [Ha Hr].
    now split.
Qed.

(** X2.  In a pass that gets to browse [/dev/usb], the only file resources ever
    released are the handle of [/dev/usb] itself: the compiled pattern and
    the directory of every group that was opened are acquired and never
    given back ([closedir] is not called on a group, [regfree] only when
    [/dev/usb] does not open). *)
Theorem group_directories_stay_open
  (w : world) (discdevs : discovered_devs) (entries : list string) :
  regcomp_ok w = true ->
  opendir w dev_usb = Some entries ->
  files (acquired (events (solaris_get_device_list w discdevs)))
  = (Compiled_regex :: Directory dev_usb
     :: map (fun d_name => Directory (vidpid_path_of d_name))
          (filter (group_opens w) entries))%list
  /\ files (released (events (solaris_get_device_list w discdevs)))
     = [Directory dev_usb].
Proof.
  intros H1 H2.
  destruct (get_device_list_browsed w discdevs entries H1 H2) as [_ ->].
  rewrite !acquired_app, !released_app, !files_app.
  rewrite (files_flat_map _ acquired _ _ acquired_app eq_refl).
  rewrite (files_flat_map _ released _ _ released_app eq_refl).
  split.
  - cbn [acquired app]. rewrite !files_cons. cbn [is_node].
    change (files []) with (@nil resource).
    now rewrite app_nil_r, files_browse_dev_usb.
  - rewrite flat_map_nil; [reflexivity|].
    intros d. apply files_browse_vidpid.
Qed.

(** X2 on a concrete world. *)
Lemma group_directories_stay_open_witness :
  files (acquired (events (solaris_get_device_list world_without_busnum [])))
  = [Compiled_regex; Directory "/dev/usb"; Directory "/dev/usb/a12.1"]
  /\ files (released
              (events (solaris_get_device_list world_without_busnum [])))
     = [Directory "/dev/usb"].
Proof.
  apply (group_directories_stay_open world_without_busnum [] ["a12.1"]);
    reflexivity.
Defined.

(** X3.  The test on the resolved path is a test for the string prefix
    [/devices].  An instance whose witness file resolves to a path without
    that prefix is skipped with a warning: the resolver is not entered. *)
Theorem paths_outside_devices_are_skipped
  (w : world) (vidpid_path : string) (discdevs : discovered_devs)
  (inst device_path : string) :
  Ascii.eqb "." (first_char inst) = false ->
  strlen (devstat_path_of vidpid_path inst) < sizeof_devstat_path ->
  realpath w (devstat_path_of vidpid_path inst) = Some device_path ->
  (strncmp device_path devices devices_len = 0
   <-> exists rest, device_path = devices ++ rest)
  /\ ((forall rest, device_path <> devices ++ rest) ->
      events (browse_instance w vidpid_path discdevs inst)
      = [Log LOG_LEVEL_DEBUG (found_instance inst);
         Log LOG_LEVEL_INFO (found_ugen_device vidpid_path inst);
         Log LOG_LEVEL_DEBUG (device_path_is device_path);
         Log LOG_LEVEL_WARNING (not_under_devices device_path)]).
Proof.
  intros H1 H2 H3.
  assert (Hiff : strncmp device_path devices devices_len = 0
                 <-> exists rest, device_path = devices ++ rest).
  { split.
    - intros H. exists (advance devices_len device_path).
      apply (strncmp_prefix devices device_path); [reflexivity|exact H].
    - intros [rest ->]. apply (strncmp_append devices rest). }
  split; [exact Hiff|].
  intros Hout.
  assert (E : (strncmp device_path devices devices_len =? 0) = false).
  { apply Z.eqb_neq. intros H. apply Hiff in H as [rest Hr].
    now apply (Hout rest). }
  unfold browse_instance. rewrite H1.
  apply Z.leb_gt in H2. unfold devstat_path_of in H2, H3.
  autorewrite with trace. rewrite H2, H3.
  autorewrite with trace. now rewrite E.
Qed.

(** X3 on a concrete world. *)
Lemma paths_outside_devices_are_skipped_witness :
  events (browse_instance world_outside_devices "/dev/usb/a12.1" [] "0")
  = [Log LOG_LEVEL_DEBUG (found_instance "0");
     Log LOG_LEVEL_INFO (found_ugen_device "/dev/usb/a12.1" "0");
     Log LOG_LEVEL_DEBUG (device_path_is "/tmp/device@2:a12.1.devstat");
     Log LOG_LEVEL_WARNING (not_under_devices "/tmp/device@2:a12.1.devstat")].
Proof.
  apply (paths_outside_devices_are_skipped world_outside_devices
           "/dev/usb/a12.1" [] "0" "/tmp/device@2:a12.1.devstat");
    try reflexivity.
  intros rest H. vm_compute in H. discriminate.
Defined.

(** X4.  The paths the resolver is entered with during a pass are exactly these:
    the pattern compiles, some entry of [/dev/usb] passes the filter, has at
    most 9 characters and opens; one of its instances is not hidden, its
    name and the name of the group have at most 13 characters together, and
    its witness file resolves to [/devices] followed by a remainder; the
    path is that remainder cut at its last colon. *)
Theorem resolver_paths_of_a_pass
  (w : world) (discdevs : discovered_devs) (path : string) :
  In path (resolver_calls (events (solaris_get_device_list w discdevs)))
  <->
  regcomp_ok w = true
  /\ exists (entries insts : list string) (d_name inst rest : string),
       opendir w dev_usb = Some entries
       /\ In d_name entries
       /\ regexec vidpid_regex d_name = true
       /\ (String.length d_name <= 9)%nat
       /\ opendir w (vidpid_path_of d_name) = Some insts
       /\ In inst insts
       /\ first_char inst <> "."%char
       /\ (String.length d_name + String.length inst <= 13)%nat
       /\ realpath w (devstat_path_of (vidpid_path_of d_name) inst)
          = Some (devices ++ rest)
       /\ path = match strrchr rest ":" with
                 | Some colon => truncate_at colon rest
                 | None => rest
                 end.
Proof.
  split.
  - intros H.
    assert (Hre : regcomp_ok w = true).
    { destruct (regcomp_ok w) eqn:E; [reflexivity|].
      now rewrite get_device_list_regcomp_failed in H. }
    split; [exact Hre|].
    apply resolver_calls_get_device_list in H
      as (entries & d_name & Ho & Hi & Hp).
    rewrite resolver_calls_browse_vidpid in Hp.
    destruct (group_opens w d_name) eqn:Hg; [|contradiction].
    unfold group_opens in Hg.
    apply andb_prop in Hg as [Hg _]. apply andb_prop in Hg as [Hr Hl].
    apply Z.ltb_lt, vidpid_path_fits in Hl.
    destruct (opendir w (vidpid_path_of d_name)) as [insts|] eqn:Hd;
      [|contradiction].
    apply in_flat_map in Hp as (inst & Hin & Hp).
    rewrite resolver_calls_browse_instance in Hp.
    destruct (Ascii.eqb "." (first_char inst)) eqn:Hh; [contradiction|].
    destruct (sizeof_devstat_path <=? _) eqn:Hs; [contradiction|].
    destruct (realpath w _) as [dp|] eqn:Hrp; [|contradiction].
    destruct (strncmp dp devices devices_len =? 0) eqn:Hc; [|contradiction].
    destruct Hp as [Hp|[]].
    apply Z.eqb_eq in Hc.
    pose proof (strncmp_prefix devices dp eq_refl Hc) as Hpre.
    exists entries, insts, d_name, inst, (advance devices_len dp).
    repeat split; try assumption.
    + apply Ascii.eqb_neq in Hh. congruence.
    + apply devstat_path_fits. now apply Z.leb_gt.
    + rewrite Hrp. f_equal. exact Hpre.
    + symmetry. exact Hp.
  - intros (Hre & entries & insts & d_name & inst & rest
            & Ho & Hi & Hr & Hl & Hd & Hin & Hh & Hs & Hrp & ->).
    destruct (get_device_list_browsed w discdevs entries Hre Ho) as [_ ->].
    rewrite !TraceFacts.resolver_calls_app,
      TraceFacts.resolver_calls_flat_map.
    apply in_or_app; right. apply in_or_app; left.
    apply in_flat_map. exists d_name. split; [exact Hi|].
    rewrite resolver_calls_browse_vidpid. unfold group_opens.
    rewrite Hr, Hd. apply vidpid_path_fits, Z.ltb_lt in Hl. rewrite Hl.
    cbn [andb]. apply in_flat_map. exists inst. split; [exact Hin|].
    rewrite resolver_calls_browse_instance.
    replace (Ascii.eqb "." (first_char inst)) with false
      by (symmetry; apply Ascii.eqb_neq; congruence).
    apply devstat_path_fits, Z.leb_gt in Hs. rewrite Hs, Hrp.
    rewrite strncmp_append. cbn [Z.eqb]. left.
    unfold device_node_path_of, devices_len. now rewrite advance_append.
Qed.

(** X4 on a concrete world. *)
Lemma resolver_paths_of_a_pass_witness :
  In "/pci@0,0/pci106b,3f@6/device@52"
    (resolver_calls (events (solaris_get_device_list world_one_device []))).
Proof.
  apply (proj2 (resolver_paths_of_a_pass world_one_device []
                  "/pci@0,0/pci106b,3f@6/device@52")).
  split; [reflexivity|].
  exists ["."; ".."; "a12.1"], ["."; ".."; "0"], "a12.1", "0",
    "/pci@0,0/pci106b,3f@6/device@52:a12.1.devstat".
  repeat split; try reflexivity; try (simpl; lia); try discriminate.
  - simpl; tauto.
  - simpl; tauto.
Defined.

(** X5.  The two path buffers bound the names: the path of a group fits exactly
    when its name has at most 9 characters, that of a witness file exactly
    when the names of group and instance have at most 13 characters together.
    A longer name is skipped with an error, before any directory is opened
    or any path resolved. *)
Theorem path_buffers_bound_the_names
  (w : world) (discdevs : discovered_devs) (d_name inst : string) :
  (strlen (vidpid_path_of d_name) < sizeof_vidpid_path
   <-> (String.length d_name <= 9)%nat)
  /\ (strlen (devstat_path_of (vidpid_path_of d_name) inst)
      < sizeof_devstat_path
      <-> (String.length d_name + String.length inst <= 13)%nat)
  /\ (regexec vidpid_regex d_name = true ->
      (9 < String.length d_name)%nat ->
      events (browse_vidpid w discdevs d_name)
      = [Log LOG_LEVEL_DEBUG (found d_name);
         Log LOG_LEVEL_ERROR vidpid_path_snprintf_failed])
  /\ (Ascii.eqb "." (first_char inst) = false ->
      (13 < String.length d_name + String.length inst)%nat ->
      events (browse_instance w (vidpid_path_of d_name) discdevs inst)
      = [Log LOG_LEVEL_DEBUG (found_instance inst);
         Log LOG_LEVEL_INFO (found_ugen_device (vidpid_path_of d_name) inst);
         Log LOG_LEVEL_ERROR devstat_path_snprintf_failed]).
Proof.
  split; [apply vidpid_path_fits|]. split; [apply devstat_path_fits|].
  split.
  - intros Hr Hl. unfold browse_vidpid. rewrite Hr. cbn [negb].
    assert (E : (sizeof_vidpid_path <=? strlen (vidpid_path_of d_name)) = true).
    { apply Z.leb_le. pose proof (vidpid_path_fits d_name). lia. }
    unfold vidpid_path_of in E. autorewrite with trace. now rewrite E.
  - intros Hh Hl. unfold browse_instance. rewrite Hh.
    assert (E : (sizeof_devstat_path
                 <=? strlen (devstat_path_of (vidpid_path_of d_name) inst))
                = true).
    { apply Z.leb_le. pose proof (devstat_path_fits d_name inst). lia. }
    unfold devstat_path_of in E. autorewrite with trace. now rewrite E.
Qed.

(** X5 on a concrete world. *)
Lemma path_buffers_bound_the_names_witness :
  events (browse_vidpid world_one_device [] "a1234.12345")
  = [Log LOG_LEVEL_DEBUG (found "a1234.12345");
     Log LOG_LEVEL_ERROR vidpid_path_snprintf_failed]
  /\ events (browse_instance world_one_device (vidpid_path_of "a12.1") []
               "instance0")
     = [Log LOG_LEVEL_DEBUG (found_instance "instance0");
        Log LOG_LEVEL_INFO
          (found_ugen_device (vidpid_path_of "a12.1") "instance0");
        Log LOG_LEVEL_ERROR devstat_path_snprintf_failed].
Proof.
  split.
  - apply (path_buffers_bound_the_names world_one_device []
             "a1234.12345" ""); [reflexivity | simpl; lia].
  - apply (path_buffers_bound_the_names world_one_device []
             "a12.1" "instance0"); [reflexivity | simpl; lia].
Defined.

(** X6.  For a derived identity whose address fits 8 bits and whose bus number
    is within [0, 2^23), the session identifier is [busnum * 256 + devaddr];
    bus number and address are recovered from it by division and remainder,
    so that two such identities with the same session identifier have the
    same bus number and the same address. *)
Theorem session_id_unpacks
  (dn : di_node) (path : string) (id : device_identity) :
  value (derive_identity dn path) = Some id ->
  0 <= busnum id < 2 ^ 23 ->
  0 <= devaddr id < 256 ->
  session_id id = busnum id * 256 + devaddr id
  /\ session_id id / 256 = busnum id
  /\ session_id id mod 256 = devaddr id
  /\ forall (dn' : di_node) (path' : string) (id' : device_identity),
       value (derive_identity dn' path') = Some id' ->
       0 <= busnum id' < 2 ^ 23 ->
       0 <= devaddr id' < 256 ->
       session_id id' = session_id id ->
       busnum id' = busnum id /\ devaddr id' = devaddr id.
Proof.
  assert (Hpack : forall dn0 path0 id0,
            value (derive_identity dn0 path0) = Some id0 ->
            0 <= busnum id0 < 2 ^ 23 -> 0 <= devaddr id0 < 256 ->
            session_id id0 = busnum id0 * 256 + devaddr id0).
  { intros dn0 path0 id0 E Hb Hd.
    destruct (derive_identity_inv _ _ _ E) as (b & n & k & Hb' & Hc & Hat).
    rewrite (derive_identity_ok _ _ _ _ _ Hb' Hc Hat) in E.
    injection E as <-. cbn [busnum devaddr session_id] in *.
    rewrite session_id_in_range; [|assumption|lia|apply atoi_range].
    apply lor_shiftl_low; lia. }
  intros E Hb Hd. pose proof (Hpack dn path id E Hb Hd) as Hs.
  split; [exact Hs|]. split; [|split].
  - rewrite Hs. rewrite Z.div_add_l by lia. rewrite Z.div_small; lia.
  - rewrite Hs. rewrite Z.add_comm, Z.mod_add by lia. apply Z.mod_small; lia.
  - intros dn' path' id' E' Hb' Hd' Heq.
    pose proof (Hpack dn' path' id' E' Hb' Hd') as Hs'. lia.
Qed.

(** X6 on a concrete world. *)
Lemma session_id_unpacks_witness :
  value (derive_identity node_bus_0x12 "/pci@0,0/pci106b,3f@6/device@52")
  = Some {| session_id := 4660; busnum := 18; devaddr := 52;
            numconf := 1; speed := LIBUSB_SPEED_FULL |}
  /\ 4660 = 18 * 256 + 52
  /\ 4660 / 256 = 18
  /\ 4660 mod 256 = 52.
Proof.
  destruct (session_id_unpacks node_bus_0x12
              "/pci@0,0/pci106b,3f@6/device@52"
              {| session_id := 4660; busnum := 18; devaddr := 52;
                 numconf := 1; speed := LIBUSB_SPEED_FULL |})
    as (H1 & H2 & H3 & _).
  - reflexivity.
  - simpl; lia.
  - simpl; lia.
  - split; [reflexivity|]. repeat split; assumption.
Defined.

(** X7.  [solaris_add_device] issues an error diagnostic in exactly two cases:
    the node does not open, or it opens with both required properties found
    and the path has no [@].  A candidate discarded for a missing required
    property leaves trace lines only. *)
Theorem resolver_error_diagnostics
  (w : world) (discdevs : discovered_devs) (path : string) :
  existsb is_error (events (solaris_add_device w discdevs path)) = true
  <-> di_init w path = None
      \/ exists (dn : di_node) (b n : Z),
           di_init w path = Some dn
           /\ di_props dn "assigned-address" = Some [b]
           /\ di_props dn "usb-num-configs" = Some [n]
           /\ strrchr path "@" = None.
Proof.
  destruct (di_init w path) as [dn|] eqn:E.
  2:{ rewrite (solaris_add_device_events_closed _ discdevs _ E).
      split; [now left | reflexivity]. }
  rewrite (solaris_add_device_events_open _ discdevs _ _ E).
  cbn [existsb is_error orb]. rewrite existsb_app. cbn [existsb is_error].
  rewrite !orb_false_r.
  destruct (lookup_retval dn "assigned-address" =? 1) eqn:E1.
  2:{ rewrite derive_identity_no_busnum by assumption. cbn [events snd].
      rewrite errors_lookup. split; [discriminate|].
      intros [H|(dn' & b & n & Hd & Hb & _)]; [discriminate|].
      injection Hd as <-. rewrite (lookup_retval_found _ _ _ Hb) in E1.
      discriminate. }
  apply Z.eqb_eq in E1.
  destruct (lookup_retval dn "usb-num-configs" =? 1) eqn:E2.
  2:{ rewrite derive_identity_no_numconf by assumption. cbn [events snd].
      rewrite existsb_app, !errors_lookup. split; [discriminate|].
      intros [H|(dn' & b & n & Hd & _ & Hc & _)]; [discriminate|].
      injection Hd as <-. rewrite (lookup_retval_found _ _ _ Hc) in E2.
      discriminate. }
  apply Z.eqb_eq in E2.
  destruct (lookup_retval_one _ _ E1) as [b Hb].
  destruct (lookup_retval_one _ _ E2) as [n Hn].
  destruct (strrchr path "@") as [k|] eqn:E3.
  - rewrite (derive_identity_ok _ _ _ _ _ Hb Hn E3). cbn [events snd].
    rewrite !existsb_app, !errors_lookup, errors_classify_speed.
    split; [discriminate|].
    intros [H|(dn' & b' & n' & _ & _ & _ & H)]; discriminate.
  - rewrite derive_identity_no_at by assumption. cbn [events snd].
    rewrite !existsb_app, !errors_lookup, errors_classify_speed.
    split; [|reflexivity]. intros _. right. now exists dn, b, n.
Qed.

(** X7 on a concrete world. *)
Lemma resolver_error_diagnostics_witness :
  existsb is_error (events (solaris_add_device world_without_at [] "/pci/hub"))
  = true
  /\ existsb is_error
       (events (solaris_add_device world_without_at [] "/pci/nothing"))
     = true.
Proof.
  split.
  - apply (proj2 (resolver_error_diagnostics world_without_at [] "/pci/hub")).
    right. exists node_bus_0x12, 18, 1. repeat split; reflexivity.
  - apply (proj2 (resolver_error_diagnostics world_without_at []
                    "/pci/nothing")).
    left. reflexivity.
Defined.

(** X8.  An entry of [/dev/usb] passes the filter exactly when its name contains
    a dot between two hexadecimal digits (lower case).  A name that passes
    has at least 3 characters; [.] and [..], as any hidden name of at most
    two characters, are skipped without a trace. *)
Theorem filter_needs_hex_dot_hex (d_name : string) :
  (regexec vidpid_regex d_name = true
   <-> exists (pre post : string) (h1 h2 : ascii),
         d_name = pre ++ String h1 (String "." (String h2 post))
         /\ is_hex h1 = true /\ is_hex h2 = true)
  /\ (regexec vidpid_regex d_name = true -> (3 <= String.length d_name)%nat)
  /\ (Ascii.eqb "." (first_char d_name) = true ->
      (String.length d_name <= 2)%nat ->
      forall (w : world) (dd : discovered_devs),
        events (browse_vidpid w dd d_name) = []).
Proof.
  assert (Hiff : regexec vidpid_regex d_name = true
                 <-> exists (pre post : string) (h1 h2 : ascii),
                       d_name = pre ++ String h1 (String "." (String h2 post))
                       /\ is_hex h1 = true /\ is_hex h2 = true).
  { rewrite regexec_iff. split.
    - intros (pre & mid & post & -> & H). apply matches_vidpid in H.
      destruct H as (a & b & -> & [Ha Hha] & [Hb Hhb]).
      destruct (string_snoc a Ha) as (a' & h1 & ->).
      destruct b as [|h2 b']; [contradiction|].
      rewrite all_hex_app in Hha. apply andb_prop in Hha as [_ Hh1].
      cbn [all_hex] in Hh1, Hhb. rewrite andb_true_r in Hh1.
      apply andb_prop in Hhb as [Hh2 _].
      exists (pre ++ a'), (b' ++ post), h1, h2.
      split; [|now split].
      rewrite !append_assoc. reflexivity.
    - intros (pre & post & h1 & h2 & -> & H1 & H2).
      exists pre, (String h1 (String "." (String h2 ""))), post.
      split; [reflexivity|]. apply matches_vidpid.
      exists (String h1 ""), (String h2 ""). split; [reflexivity|].
      split; (split; [discriminate|]); cbn [all_hex];
        now rewrite ?H1, ?H2. }
  assert (Hlen : regexec vidpid_regex d_name = true ->
                 (3 <= String.length d_name)%nat).
  { intros H. apply Hiff in H as (pre & post & h1 & h2 & -> & _).
    rewrite length_append. cbn [String.length]. lia. }
  split; [exact Hiff|]. split; [exact Hlen|].
  intros Hdot Hshort w dd.
  destruct (regexec vidpid_regex d_name) eqn:E.
  - specialize (Hlen eq_refl). lia.
  - rewrite (browse_vidpid_skipped w dd d_name E). now rewrite Hdot.
Qed.

(** X8 on a concrete world. *)
Lemma filter_needs_hex_dot_hex_witness :
  events (browse_vidpid world_one_device [] "..") = []
  /\ (3 <= String.length "a12.1")%nat.
Proof.
  split.
  - apply (proj2 (proj2 (filter_needs_hex_dot_hex ".."))); [reflexivity|].
    simpl; lia.
  - apply (proj1 (proj2 (filter_needs_hex_dot_hex "a12.1"))). reflexivity.
Defined.

(** X9.  The identities reported during a pass are, in order, those derived for
    the paths the resolver was entered with; the walker itself reports
    none. *)
Theorem identities_come_from_resolver_calls
  (w : world) (discdevs : discovered_devs) :
  sessions (events (solaris_get_device_list w discdevs))
  = flat_map
      (fun path =>
         match di_init w path with
         | Some dn => reported (value (derive_identity dn path))
         | None => []
         end)
      (resolver_calls (events (solaris_get_device_list w discdevs))).
Proof.
  rewrite (composed_get_device_list w discdevs).
  apply flat_map_ext. intros path. apply sessions_add_device.
Qed.

(** X10.  The resolver looks the properties up in one order, [assigned-address],
    [usb-num-configs], then the speed properties, and what it looks up is a
    non-empty prefix of that list: only [assigned-address] when that is not
    found, the two required properties when the second is not found, and
    otherwise the speed properties up to the first one present. *)
Theorem lookups_stop_at_the_first_failure (dn : di_node) (path : string) :
  (exists n : nat,
     (1 <= n <= 6)%nat
     /\ probes (events (derive_identity dn path))
        = firstn n ("assigned-address" :: "usb-num-configs" :: speed_props))
  /\ ((forall v, di_props dn "assigned-address" <> Some [v]) ->
      probes (events (derive_identity dn path)) = ["assigned-address"])
  /\ (forall b : Z,
        di_props dn "assigned-address" = Some [b] ->
        (forall v, di_props dn "usb-num-configs" <> Some [v]) ->
        probes (events (derive_identity dn path))
        = ["assigned-address"; "usb-num-configs"])
  /\ (forall b n : Z,
        di_props dn "assigned-address" = Some [b] ->
        di_props dn "usb-num-configs" = Some [n] ->
        probes (events (derive_identity dn path))
        = "assigned-address" :: "usb-num-configs"
          :: probed_until (present dn) speed_props).
Proof.
  assert (H1 : (lookup_retval dn "assigned-address" =? 1) = false ->
               probes (events (derive_identity dn path))
               = ["assigned-address"]).
  { intros E. rewrite derive_identity_no_busnum by assumption.
    apply probes_lookup. }
  assert (H2 : lookup_retval dn "assigned-address" = 1 ->
               (lookup_retval dn "usb-num-configs" =? 1) = false ->
               probes (events (derive_identity dn path))
               = ["assigned-address"; "usb-num-configs"]).
  { intros E1 E2. rewrite derive_identity_no_numconf by assumption.
    cbn [events snd]. now rewrite TraceFacts.probes_app, !probes_lookup. }
  assert (H3 : lookup_retval dn "assigned-address" = 1 ->
               lookup_retval dn "usb-num-configs" = 1 ->
               probes (events (derive_identity dn path))
               = "assigned-address" :: "usb-num-configs"
                 :: probed_until (present dn) speed_props).
  { intros E1 E2.
    destruct (lookup_retval_one _ _ E1) as [b Hb].
    destruct (lookup_retval_one _ _ E2) as [n Hn].
    destruct (strrchr path "@") as [k|] eqn:E3.
    - rewrite (derive_identity_ok _ _ _ _ _ Hb Hn E3). cbn [events snd].
      rewrite !TraceFacts.probes_app, !probes_lookup.
      rewrite classify_speed_events, probes_lookup_events.
      cbn [probes app]. now rewrite app_nil_r.
    - rewrite derive_identity_no_at by assumption. cbn [events snd].
      rewrite !TraceFacts.probes_app, !probes_lookup.
      rewrite classify_speed_events, probes_lookup_events.
      cbn [probes app]. now rewrite app_nil_r. }
  split; [|split; [|split]].
  - destruct (lookup_retval dn "assigned-address" =? 1) eqn:E1.
    2:{ exists 1%nat. split; [lia|]. now rewrite H1. }
    apply Z.eqb_eq in E1.
    destruct (lookup_retval dn "usb-num-configs" =? 1) eqn:E2.
    2:{ exists 2%nat. split; [lia|]. now rewrite H2. }
    apply Z.eqb_eq in E2.
    destruct (probed_until_prefix (present dn) speed_props)
      as (m & Hm & E); [discriminate|].
    exists (S (S m)). cbn [List.length speed_props] in Hm. split; [lia|].
    rewrite H3 by assumption. cbn [firstn]. now rewrite E.
  - intros Hb. apply H1. now apply lookup_retval_not_found.
  - intros b Hb Hc. apply H2.
    + exact (lookup_retval_found _ _ _ Hb).
    + now apply lookup_retval_not_found.
  - intros b n Hb Hn. apply H3; eapply lookup_retval_found; eassumption.
Qed.

(** X10 on a concrete world. *)
Lemma lookups_stop_at_the_first_failure_witness :
  probes (events (derive_identity node_without_busnum "/pci@0,0/device@7"))
  = ["assigned-address"]
  /\ probes (events (derive_identity node_without_numconf
                       "/pci@0,0/device@7"))
     = ["assigned-address"; "usb-num-configs"]
  /\ probes (events (derive_identity node_low_and_high "/pci@0,0/device@7"))
     = ["assigned-address"; "usb-num-configs"; "low-speed"].
Proof.
  split; [|split].
  - apply (proj1 (proj2 (lookups_stop_at_the_first_failure
                           node_without_busnum "/pci@0,0/device@7"))).
    intros v; vm_compute; discriminate.
  - apply (proj1 (proj2 (proj2 (lookups_stop_at_the_first_failure
                                  node_without_numconf "/pci@0,0/device@7")))
             1); [reflexivity|].
    intros v; vm_compute; discriminate.
  - apply (proj2 (proj2 (proj2 (lookups_stop_at_the_first_failure
                                  node_low_and_high "/pci@0,0/device@7")))
             1 1); reflexivity.
Defined.

(** X11.  The speed is never Unknown.  It is Low exactly when [low-speed] is
    there; High exactly when [low-speed] and [full-speed] are missing and
    [high-speed] is there; Super exactly when only [super-speed] is there;
    Full exactly when [low-speed] is missing and either [full-speed] is
    there or both [high-speed] and [super-speed] are missing. *)
Theorem speed_outcomes (dn : di_node) :
  value (classify_speed dn) <> LIBUSB_SPEED_UNKNOWN
  /\ (value (classify_speed dn) = LIBUSB_SPEED_LOW
      <-> di_props dn "low-speed" <> None)
  /\ (value (classify_speed dn) = LIBUSB_SPEED_HIGH
      <-> di_props dn "low-speed" = None
          /\ di_props dn "full-speed" = None
          /\ di_props dn "high-speed" <> None)
  /\ (value (classify_speed dn) = LIBUSB_SPEED_SUPER
      <-> di_props dn "low-speed" = None
          /\ di_props dn "full-speed" = None
          /\ di_props dn "high-speed" = None
          /\ di_props dn "super-speed" <> None)
  /\ (value (classify_speed dn) = LIBUSB_SPEED_FULL
      <-> di_props dn "low-speed" = None
          /\ (di_props dn "full-speed" <> None
              \/ (di_props dn "high-speed" = None
                  /\ di_props dn "super-speed" = None))).
Proof.
  rewrite classify_speed_value. unfold speed_of_presence.
  pose proof (present_iff dn "low-speed") as Pl.
  pose proof (present_iff dn "full-speed") as Pf.
  pose proof (present_iff dn "high-speed") as Ph.
  pose proof (present_iff dn "super-speed") as Ps.
  pose proof (absent_iff dn "low-speed") as Al.
  pose proof (absent_iff dn "full-speed") as Af.
  pose proof (absent_iff dn "high-speed") as Ah.
  pose proof (absent_iff dn "super-speed") as As.
  destruct (present dn "low-speed"), (present dn "full-speed"),
    (present dn "high-speed"), (present dn "super-speed");
    repeat split; try discriminate; try tauto;
    intros; intuition (try discriminate; try congruence).
Qed.

(** X11 on a concrete world. *)
Lemma speed_outcomes_witness :
  value (classify_speed node_super) = LIBUSB_SPEED_SUPER
  /\ value (classify_speed node_low_and_high) = LIBUSB_SPEED_LOW.
Proof.
  split.
  - apply (proj1 (proj2 (proj2 (proj2 (speed_outcomes node_super))))).
    repeat split; try reflexivity. discriminate.
  - apply (proj1 (proj2 (speed_outcomes node_low_and_high))). discriminate.
Defined.

(** X12.  One call of the resolver reports at most one identity, and a pass
    reports no more identities than the number of paths it entered the
    resolver with. *)
Theorem at_most_one_identity_per_candidate
  (w : world) (discdevs : discovered_devs) :
  (List.length (sessions (events (solaris_get_device_list w discdevs)))
   <= List.length
        (resolver_calls (events (solaris_get_device_list w discdevs))))%nat
  /\ forall path : string,
       (List.length (sessions (events (solaris_add_device w discdevs path)))
        <= 1)%nat.
Proof.
  assert (H : forall path,
            (List.length (resolved w discdevs path) <= 1)%nat).
  { intros path. unfold resolved. rewrite sessions_add_device.
    destruct (di_init w path) as [dn|]; [|simpl; lia].
    destruct (value (derive_identity dn path)); simpl; lia. }
  split; [|exact H].
  rewrite (composed_get_device_list w discdevs).
  now apply length_flat_map_le.
Qed.


